(** * The autograd notebook: optimizers, the [minimize] driver and the
      Gaussian objective

    A shallow embedding of the Python code of
    [labs/08_frameworks/A_PyTorch_introduction__autograd_in_action.ipynb]:
    the classes [GradientDescent], [MomentumGradientDescent], [Gaussian],
    [GaussianCombination] and the function [minimize].

    Tensors are mutable Python objects that the optimizer and the driver
    share by reference, so they live in a store and are named by their
    address.  The element type is kept abstract (class [Scalar]): nothing
    about the arithmetic is assumed in the optimizer part, which therefore
    reads the same for [float32] and for exact numbers.  Two instances
    are given, the rationals (to run the code) and the reals (for the
    Gaussian objective, which needs an exponential). *)

From Stdlib Require Import QArith Qreals Reals Lra Lia.
From stdpp Require Import base option list.

(** ** Scalars *)

Class Scalar (R : Type) := {
  lit : Q → R;            (* the value of a numeric literal *)
  add : R → R → R;
  sub : R → R → R;
  mul : R → R → R;
  ltb : R → R → bool      (* [float(a) < b] *)
}.

Class Exponential (R : Type) := exp : R → R.

Definition Qltb (a b : Q) : bool := negb (Qle_bool b a).

#[export] Instance Q_scalar : Scalar Q :=
  {| lit := λ q, q; add := Qplus; sub := Qminus; mul := Qmult; ltb := Qltb |}.

Definition Rltb (a b : R) : bool := if Rlt_dec a b then true else false.

#[export] Instance R_scalar : Scalar R :=
  {| lit := Q2R; add := Rplus; sub := Rminus; mul := Rmult; ltb := Rltb |}.

#[export] Instance R_exponential : Exponential R := Rtrigo_def.exp.

(** ** Results of Python calls *)

Inductive pyerr :=
| AssertionError
| ValueError
| TypeError
| RuntimeError
| IndexError
| Unbound.   (* a reference to no object: impossible in Python, where a
                reference keeps its object alive; the theorems exclude it
                by asking that the parameters are allocated *)

(** A call returns a value or raises; what an exception leaves in the
    store is not kept. *)
Inductive pyresult (A : Type) :=
| Ok (a : A)
| Raise (e : pyerr).
Arguments Ok {A} a.
Arguments Raise {A} e.

#[export] Instance pyresult_ret : MRet pyresult := λ A a, Ok a.
#[export] Instance pyresult_bind : MBind pyresult := λ A B k m,
  match m with
  | Ok a => k a
  | Raise e => Raise e
  end.

(** ** The store of tensor objects *)

(** A one-dimensional tensor with its gradient accumulator [.grad]
    ([None] until a backward pass or an assignment sets it). *)
Record tobj (R : Type) := Tensor { data : list R; grad : option (list R) }.
Arguments Tensor {R} data grad.
Arguments data {R} t.
Arguments grad {R} t.

(** Objects are named by their address in the store, which lists them in
    the order of their creation. *)
Abbreviation loc := nat (only parsing).
Abbreviation heap R := (list (tobj R)) (only parsing).

Section Optimizers.
Context {R : Type} `{Scalar R}.
#[local] Abbreviation tobj := (tobj R).
#[local] Abbreviation heap := (heap R).

Definition zero : R := lit 0.

Definition deref (p : loc) (h : heap) : pyresult tobj :=
  match h !! p with
  | Some o => Ok o
  | None => Raise Unbound
  end.

(** [torch.zeros_like(t)] and [t.zero_()]. *)
Definition zeros_like (t : list R) : list R := map (λ _, zero) t.

(** ** class GradientDescent *)

Inductive optimizer :=
| GradientDescent (params : list loc) (lr : R)
| MomentumGradientDescent (params : list loc) (lr momentum : R)
                          (velocities : list loc)
| FrameworkOptimizer (param_groups : list (list loc))
                     (ext_step ext_zero_grad : heap → pyresult heap).

(** [param -= self.lr * param.grad] on one tensor.  The product with a
    missing gradient is Python's [float * None]; an in-place update with
    an operand of another shape is refused by the tensor library. *)
Definition gd_update (lr : R) (o : tobj) : pyresult tobj :=
  match grad o with
  | None => Raise TypeError
  | Some g =>
      if decide (length g = length (data o))
      then Ok (Tensor (zip_with (λ x gi, sub x (mul lr gi)) (data o) g)
                      (grad o))
      else Raise RuntimeError
  end.

(** [for param in self.params: param -= self.lr * param.grad] *)
Fixpoint gd_step (lr : R) (params : list loc) (h : heap) : pyresult heap :=
  match params with
  | [] => Ok h
  | p :: ps =>
      o ← deref p h;
      o' ← gd_update lr o;
      gd_step lr ps (<[p := o']> h)
  end.

(** [if param.grad is not None: param.grad.zero_()] *)
Definition zero_one (o : tobj) : tobj :=
  match grad o with
  | None => o
  | Some g => Tensor (data o) (Some (zeros_like g))
  end.

Fixpoint zero_loop (params : list loc) (h : heap) : pyresult heap :=
  match params with
  | [] => Ok h
  | p :: ps =>
      o ← deref p h;
      zero_loop ps (<[p := zero_one o]> h)
  end.

(** The two methods.  A method may assign attributes of [self], so it
    returns the optimizer together with the store. *)
Definition step (opt : optimizer) (h : heap) : pyresult (optimizer * heap) :=
  match opt with
  | GradientDescent params lr =>
      h' ← gd_step lr params h; Ok (opt, h')
  | MomentumGradientDescent _ _ _ _ =>
      (* TODO: implement me!  /  pass *)
      Ok (opt, h)
  | FrameworkOptimizer _ ext_step _ =>
      h' ← ext_step h; Ok (opt, h')
  end.

Definition zero_grad (opt : optimizer) (h : heap)
  : pyresult (optimizer * heap) :=
  match opt with
  | GradientDescent params _
  | MomentumGradientDescent params _ _ _ =>
      h' ← zero_loop params h; Ok (opt, h')
  | FrameworkOptimizer _ _ ext_zero_grad =>
      h' ← ext_zero_grad h; Ok (opt, h')
  end.

(** [GradientDescent(params, lr=0.1)] *)
Definition default_lr : R := lit (1 # 10).
Definition default_momentum : R := lit (9 # 10).

(** [MomentumGradientDescent.__init__]: the velocities are fresh tensors,
    [torch.zeros_like(param)] for each parameter in turn. *)
Fixpoint alloc_velocities (params : list loc) (h : heap)
  : pyresult (list loc * heap) :=
  match params with
  | [] => Ok ([], h)
  | p :: ps =>
      o ← deref p h;
      let v := length h in
      '(vs, h') ← alloc_velocities ps (h ++ [Tensor (zeros_like (data o)) None]);
      Ok (v :: vs, h')
  end.

Definition MomentumGradientDescent_init (params : list loc) (lr momentum : R)
    (h : heap) : pyresult (optimizer * heap) :=
  '(vs, h') ← alloc_velocities params h;
  Ok (MomentumGradientDescent params lr momentum vs, h').

(** ** def minimize *)

(** The objective is any differentiable function of the iterate; the
    reverse-mode differentiation of the tensor library is taken as given,
    as the gradient field that [value.backward()] adds to [.grad]. *)
Record objective := Objective {
  value : list R → R;
  gradient : list R → list R
}.

(** [value.backward()]: the gradient is stored in a [.grad] that was
    [None] and added to one that was set. *)
Definition accumulate (g : list R) (acc : option (list R))
  : pyresult (list R) :=
  match acc with
  | None => Ok g
  | Some g0 =>
      if decide (length g0 = length g) then Ok (zip_with add g0 g)
      else Raise RuntimeError
  end.

Definition backward (f : objective) (x : loc) (h : heap) : pyresult heap :=
  o ← deref x h;
  g ← accumulate (gradient f (data o)) (grad o);
  Ok (<[x := Tensor (data o) (Some g)]> h).

(** [torch.sum(t ** 2)] *)
Definition sum_sq (t : list R) : R :=
  foldr (λ x acc, add (mul x x) acc) zero t.

(** [iterate.grad ** 2] needs a gradient. *)
Definition get_grad (x : loc) (h : heap) : pyresult (list R) :=
  o ← deref x h;
  match grad o with
  | Some g => Ok g
  | None => Raise TypeError
  end.

(** The convergence threshold [1e-6] and the default budget. *)
Definition tol : R := lit (1 # 1000000).
Definition default_max_iter : nat := 500.

(** [[iterate] = ...]: unpacking a list that has not exactly one element
    raises [ValueError]. *)
Definition unpack1 {A} (l : list A) : pyresult A :=
  match l with
  | [x] => Ok x
  | _ => Raise ValueError
  end.

(** The first lines of [minimize]: [hasattr(optimizer, 'params')] holds
    for the two classes of the notebook; a framework optimizer has
    [param_groups], of which there must be one. *)
Definition get_iterate (opt : optimizer) : pyresult loc :=
  match opt with
  | GradientDescent params _
  | MomentumGradientDescent params _ _ _ => unpack1 params
  | FrameworkOptimizer groups _ _ =>
      match groups with
      | [g] => unpack1 g
      | _ => Raise AssertionError
      end
  end.

(** [iterate.data.clone()[None, :]]: a new tensor with the same elements. *)
Definition clone_data (x : loc) (h : heap) : pyresult (loc * heap) :=
  o ← deref x h;
  Ok (length h, h ++ [Tensor (data o) None]).

(** The two [print] calls of the verbose mode format [iterate[0]] and
    [iterate[1]], which an iterate of fewer than two elements does not
    have.  Of the text only the kind of message and the iteration are
    kept. *)
Inductive message :=
| Converged (i : nat)
| Iteration (i : nat).

Definition report (x : loc) (h : heap) : pyresult unit :=
  o ← deref x h;
  if decide (2 ≤ length (data o)) then Ok () else Raise IndexError.

Definition print (verbose : bool) (x : loc) (h : heap) (m : message)
    (out : list message) : pyresult (list message) :=
  if verbose then _ ← report x h; Ok (out ++ [m]) else Ok out.

(** What a run of the loop leaves behind: the store, the optimizer, the
    list [iterate_record], what was printed, and the history of the run,
    which is not a Python variable: the numbers that were compared with
    [1e-6], one for each iteration entered, the value of the iterate at
    each call of [optimizer.step()], and whether the loop was left by
    [break]. *)
Record run := Run {
  final : heap;
  optim : optimizer;
  iterate_record : list loc;
  printed : list message;
  tested : list R;
  stepped : list (list R);
  broke : bool
}.

(** [for i in range(max_iter): ...], from iteration [i] on, with [n]
    iterations left. *)
Fixpoint minimize_loop (f : objective) (x : loc) (verbose : bool)
    (i n : nat) (r : run) : pyresult run :=
  match n with
  | 0 => Ok r
  | S n' =>
      '(opt1, h1) ← zero_grad (optim r) (final r);
      h2 ← backward f x h1;
      g ← get_grad x h2;
      let v := sum_sq g in
      if ltb v tol then
        out ← print verbose x h2 (Converged i) (printed r);
        Ok (Run h2 opt1 (iterate_record r) out (tested r ++ [v])
                (stepped r) true)
      else
        '(c, h3) ← clone_data x h2;
        out ← print (verbose && (i mod 10 =? 0)) x h3 (Iteration i)
                    (printed r);
        o ← deref x h3;
        '(opt2, h4) ← step opt1 h3;
        minimize_loop f x verbose (S i) n'
          (Run h4 opt2 (iterate_record r ++ [c]) out (tested r ++ [v])
               (stepped r ++ [data o]) false)
  end.

(** [torch.cat(iterate_record, dim=0)]: the rows, in order; the tensor
    library refuses an empty list. *)
Fixpoint read_rows (cs : list loc) (h : heap) : pyresult (list (list R)) :=
  match cs with
  | [] => Ok []
  | c :: cs' =>
      o ← deref c h;
      rows ← read_rows cs' h;
      Ok (data o :: rows)
  end.

Definition torch_cat (cs : list loc) (h : heap) : pyresult (list (list R)) :=
  match cs with
  | [] => Raise RuntimeError
  | _ => read_rows cs h
  end.

Definition start (opt : optimizer) (h : heap) : run :=
  Run h opt [] [] [] [] false.

(** [minimize(f, optimizer, max_iter=500, verbose=False)], with the state
    it leaves, and with the tensor it returns. *)
Definition minimize_run (f : objective) (opt : optimizer) (max_iter : nat)
    (verbose : bool) (h : heap) : pyresult run :=
  x ← get_iterate opt;
  minimize_loop f x verbose 0 max_iter (start opt h).

Definition minimize (f : objective) (opt : optimizer) (max_iter : nat)
    (verbose : bool) (h : heap) : pyresult (list (list R)) :=
  r ← minimize_run f opt max_iter verbose h;
  torch_cat (iterate_record r) (final r).

End Optimizers.

Arguments optimizer R : clear implicits.
Arguments objective R : clear implicits.
Arguments run R : clear implicits.

(** ** The cell on tensor types *)

(** [x = torch.rand(n, dtype=torch.float32)] and
    [A = torch.from_numpy(np.ones((n, n)))], an array of doubles. *)
Inductive dtype := float32 | float64.

#[export] Instance dtype_eq_dec : EqDecision dtype.
Proof. solve_decision. Defined.

Definition x_dtype : dtype := float32.
Definition A_dtype : dtype := float64.

(** The tensor library is not part of the notebook.  Of [torch.matmul]
    only its check of the element types is kept, as the notebook words
    it: "you can only do operations with tensors of the same type.
    Mixing tensor types will lead to a runtime error". *)
Definition torch_matmul (a b : dtype) : pyresult dtype :=
  if decide (a = b) then Ok a else Raise RuntimeError.

(** [A.float()] *)
Definition to_float (a : dtype) : dtype := float32.

(** [try: torch.matmul(A, x)  except RuntimeError as e: print(e)]:
    the result is the error that was caught and printed, if any. *)
Definition matmul_cell (a b : dtype) : pyresult (option pyerr) :=
  match torch_matmul a b with
  | Ok _ => Ok None
  | Raise RuntimeError => Ok (Some RuntimeError)
  | Raise e => Raise e
  end.

(** ** class Gaussian, class GaussianCombination *)

(** A tensor of any dimension, as the constructors receive it: its shape
    and its elements, row by row. *)
Record array (R : Type) := Array { shape : list nat; elems : list R }.
Arguments Array {R} shape elems.
Arguments shape {R} a.
Arguments elems {R} a.

(** The argument of [forward]: "x can be a 2D-vector or a batch of
    2D-vectors". *)
Inductive points (R : Type) :=
| Point (v : list R)
| Batch (rows : list (list R)).
Arguments Point {R} v.
Arguments Batch {R} rows.

(** What Python's [sum] holds: the number it starts from, then a tensor. *)
Inductive pyval (R : Type) :=
| PyNum (q : Q)
| PyTensor (t : list R).
Arguments PyNum {R} q.
Arguments PyTensor {R} t.

Section Gaussians.
Context {R : Type} `{Scalar R} `{Exponential R}.

Record Gaussian := MkGaussian { precision : array R; mean : array R }.

(** [Gaussian.__init__] *)
Definition Gaussian_init (precision mean : array R) : pyresult Gaussian :=
  if decide (shape precision = [2; 2]) then
    if decide (shape mean = [2]) then Ok (MkGaussian precision mean)
    else Raise AssertionError
  else Raise AssertionError.

(** [torch.sum] over the elements of a row. *)
Definition tsum (t : list R) : R := foldr add zero t.

(** The element [P[i, j]] of a matrix with two columns. *)
Definition entry (P : array R) (i j : nat) : R := nth (2 * i + j) (elems P) zero.

(** [xc @ precision] for one row [xc]. *)
Definition vecmat (xc : list R) (P : array R) : list R :=
  map (λ j, tsum (imap (λ i xi, mul xi (entry P i j)) xc)) [0; 1].

(** [xc = x - self.mean], then a vector is viewed as a batch of one row.
    An argument that is not made of 2D-vectors is outside the model. *)
Definition centered (x : points R) (mean : array R) : option (list (list R)) :=
  match x with
  | Point v =>
      if decide (length v = 2) then Some [zip_with sub v (elems mean)]
      else None
  | Batch rows =>
      if forallb (λ v, Nat.eqb (length v) 2) rows
      then Some (map (λ v, zip_with sub v (elems mean)) rows)
      else None
  end.

(** [Gaussian.forward]:
    [torch.exp(-.5 * torch.sum((xc @ self.precision) * xc, dim=1))] *)
Definition Gaussian_forward (g : Gaussian) (x : points R) : option (list R) :=
  rows ← centered x (mean g);
  Some (map (λ xc, exp (mul (lit (-1 # 2))
                            (tsum (zip_with mul (vecmat xc (precision g)) xc))))
            rows).

Record GaussianCombination := MkCombination {
  gaussians : list Gaussian;
  weights : list Q          (* Python numbers *)
}.

(** [self.gaussians.append(Gaussian(precision, mean))] for each pair. *)
Fixpoint make_gaussians (pms : list (array R * array R))
  : pyresult (list Gaussian) :=
  match pms with
  | [] => Ok []
  | (p, m) :: rest =>
      g ← Gaussian_init p m;
      gs ← make_gaussians rest;
      Ok (g :: gs)
  end.

(** [GaussianCombination.__init__] *)
Definition GaussianCombination_init (precisions means : list (array R))
    (weights : list Q) : pyresult GaussianCombination :=
  if decide (length precisions = length means
             ∧ length means = length weights) then
    gs ← make_gaussians (zip precisions means);
    Ok (MkCombination gs weights)
  else Raise AssertionError.

(** [acc + t] in Python's [sum]. *)
Definition add_tensor (acc : pyval R) (t : list R) : pyval R :=
  match acc with
  | PyNum q => PyTensor (map (add (lit q)) t)
  | PyTensor s => PyTensor (zip_with add s t)
  end.

(** The terms [w * g(x)], in order. *)
Fixpoint weighted (gws : list (Gaussian * Q)) (x : points R)
  : option (list (list R)) :=
  match gws with
  | [] => Some []
  | (g, w) :: rest =>
      t ← Gaussian_forward g x;
      ts ← weighted rest x;
      Some (map (mul (lit w)) t :: ts)
  end.

(** [GaussianCombination.forward]:
    [sum(w * g(x) for g, w in zip(self.gaussians, self.weights))] *)
Definition GaussianCombination_forward (f : GaussianCombination)
    (x : points R) : option (pyval R) :=
  ts ← weighted (zip (gaussians f) (weights f)) x;
  Some (foldl add_tensor (PyNum 0) ts).

(** The objective of the notebook:
    [f = GaussianCombination([p1, p2], [m1, m2], [w1, w2])]. *)
Definition p1 : array R := Array [2; 2] [lit 1; lit 0; lit 0; lit 4].
Definition m1 : array R := Array [2] [lit 0; lit 1].
Definition w1 : Q := 1.
Definition p2 : array R := Array [2; 2] [lit 1; lit (-2); lit (-2); lit 10].
Definition m2 : array R := Array [2] [lit 0; lit (-2)].
Definition w2 : Q := -1.

Definition toy : pyresult GaussianCombination :=
  GaussianCombination_init [p1; p2] [m1; m2] [w1; w2].

End Gaussians.

Arguments Gaussian R : clear implicits.
Arguments GaussianCombination R : clear implicits.

(** * The vocabulary of the statements *)

Section Vocabulary.
Context {R : Type} `{Scalar R}.
Implicit Types (h : heap R) (o : tobj R) (x p c : loc) (opt : optimizer R)
               (params : list loc).

(** The tensor library keeps a gradient of the shape of its tensor. *)
Definition shaped o : Prop :=
  ∀ g, grad o = Some g → length g = length (data o).

Definition tensor_ok h x : Prop := ∃ o, h !! x = Some o ∧ shaped o.

(** The gradient that autograd computes has the shape of the input. *)
Definition grad_shape (f : objective R) : Prop :=
  ∀ v, length (gradient f v) = length v.

(** [h'] differs from [h] at most in the object at [x]. *)
Definition only_writes x h h' : Prop :=
  length h' = length h ∧ ∀ l, l ≠ x → h' !! l = h !! l.

(** What is asked of the methods of an optimizer of the framework: they
    return, write to the parameter only, and keep its shape. *)
Definition ext_ok (m : heap R → pyresult (heap R)) x : Prop :=
  ∀ h o, h !! x = Some o → shaped o →
    ∃ h' o', m h = Ok h' ∧ h' !! x = Some o' ∧ shaped o' ∧
             length (data o') = length (data o) ∧ only_writes x h h'.

Definition well_behaved opt x : Prop :=
  match opt with
  | FrameworkOptimizer _ s z => ext_ok s x ∧ ext_ok z x
  | _ => True
  end.

(** The verbose mode can print the first two elements of the iterate. *)
Definition printable (verbose : bool) h x : Prop :=
  verbose = true → ∃ o, h !! x = Some o ∧ 2 ≤ length (data o).

(** The classes that the notebook defines. *)
Definition own opt : Prop :=
  match opt with
  | FrameworkOptimizer _ _ _ => False
  | _ => True
  end.

(** [h'] extends [h] and agrees with it outside [x]. *)
Definition frame x h h' : Prop :=
  length h ≤ length h' ∧ ∀ l, l ≠ x → l < length h → h' !! l = h !! l.

(** Every reference in [iterate_record] names a tensor, not the iterate,
    that holds the value the iterate had at the matching call of [step]. *)
Definition recorded x (cs : list loc) (vs : list (list R)) h : Prop :=
  Forall2 (λ c v, c ≠ x ∧ ∃ g, h !! c = Some (Tensor v g)) cs vs.

(** How a run of [n] iterations can end, given the numbers [ts] it
    compared with the threshold: the budget is used up and none was
    below the threshold, or the last one was, the ones before were not,
    and the loop was left by [break]. *)
Inductive stopping (n : nat) : list R → bool → Prop :=
| ran_out ts :
    length ts = n → Forall (λ v, ltb v tol = false) ts →
    stopping n ts false
| left_early ts v :
    length ts < n → Forall (λ v, ltb v tol = false) ts → ltb v tol = true →
    stopping n (ts ++ [v]) true.

(** Every listed parameter names an object of the store. *)
Definition allocated params h : Prop := Forall (λ p, is_Some (h !! p)) params.

(** Every listed parameter has a gradient, of its own shape. *)
Definition with_gradients params h : Prop :=
  Forall (λ p, ∃ o g, h !! p = Some o ∧ grad o = Some g
                      ∧ length g = length (data o)) params.

(** The rule [x ← x − lr·∇x] on one element. *)
Definition gd_rule (lr xi gi : R) : R := sub xi (mul lr gi).

(** The momentum update as it is described:
    [v ← μ·v + ∇x], then [x ← x − lr·v]. *)
Definition momentum_rule (mu lr : R) (xs vs gs : list R)
  : list R * list R :=
  let vs' := zip_with (λ v g, add (mul mu v) g) vs gs in
  (zip_with (λ a v, sub a (mul lr v)) xs vs', vs').

End Vocabulary.

(** The two assertions of [Gaussian.__init__]. *)
Definition gaussian_shapes {R : Type} (P m : array R) : Prop :=
  shape P = [2; 2] ∧ shape m = [2].

Section RealVocabulary.
Local Open Scope R_scope.

(** [dᵀ P d] for [P = ((a, b), (c, d))] and [d = (d0, d1)]. *)
Definition quad_form (a b c d d0 d1 : R) : R :=
  d0 * (a * d0 + b * d1) + d1 * (c * d0 + d * d1).

(** [exp(−½ (x − m)ᵀ P (x − m))], the likelihood of [x] up to the
    normalising factor. *)
Definition bump (a b c d m0 m1 x0 x1 : R) : R :=
  Rtrigo_def.exp (- (1 / 2) * quad_form a b c d (x0 - m0) (x1 - m1)).

End RealVocabulary.

(** * The norm and its gradient *)

(** Division and square root, which the rationals do not have. *)
Class Analytic (R : Type) := {
  quot : R → R → R;
  root : R → R
}.

#[export] Instance R_analytic : Analytic R :=
  {| quot := Rdiv; root := R_sqrt.sqrt |}.

Section Norm.
Context {R : Type} `{Scalar R} `{Analytic R}.

(** [def f(x): return torch.sqrt(torch.sum(x ** 2, axis=0))], the first
    [f] of the notebook. *)
Definition f_norm (x : list R) : R := root (sum_sq x).

(** [expected_grad = x / f(x)] *)
Definition expected_grad (x : list R) : list R :=
  map (λ e, quot e (f_norm x)) x.

End Norm.

(** * The plotting helpers *)

(** What [plot_trace] hands to the plotting library: the number of steps
    in the label of the line, the two coordinates of the line, and the
    tags, each with its number and its position. *)
Record trace (R : Type) := Trace {
  legend_steps : nat;
  line_x : list R;
  line_y : list R;
  line_tags : list (nat * (R * R))
}.
Arguments Trace {R} legend_steps line_x line_y line_tags.
Arguments legend_steps {R} t.
Arguments line_x {R} t.
Arguments line_y {R} t.
Arguments line_tags {R} t.

(** A 2D array as the array library has it, by its rows, together with
    its number of columns, which it keeps when it has no row. *)
Record ndarray (R : Type) := Ndarray {
  n_columns : nat;
  array_rows : list (list R)
}.
Arguments Ndarray {R} n_columns array_rows.
Arguments n_columns {R} _.
Arguments array_rows {R} _.

Section Plots.
Context {R : Type} `{Scalar R} `{Exponential R}.

(** [range(start, stop, step)] for a positive step: the items
    [start + k * step], as many as the interpreter counts. *)
Definition py_range (start stop step : nat) : list nat :=
  map (λ k, start + k * step) (seq 0 ((stop - start + step - 1) / step)).

(** [a[i]] on a list or on an axis of an array. *)
Definition item {A} (l : list A) (i : nat) : pyresult A :=
  match l !! i with
  | Some a => Ok a
  | None => Raise IndexError
  end.

(** The elements at [k] of the given rows. *)
Fixpoint items_at (k : nat) (rows : list (list R)) : pyresult (list R) :=
  match rows with
  | [] => Ok []
  | r :: rest =>
      e ← item r k;
      es ← items_at k rest;
      Ok (e :: es)
  end.

(** [a[:, k]]: the column [k] of a 2D array.  An index that is not
    below the number of columns raises [IndexError], also on an array
    without rows. *)
Definition column (k : nat) (a : ndarray R) : pyresult (list R) :=
  if decide (k < n_columns a) then items_at k (array_rows a)
  else Raise IndexError.

(** [a[i, k]]: both indices are checked against the shape. *)
Definition element (a : ndarray R) (i k : nat) : pyresult R :=
  if decide (k < n_columns a)
  then r ← item (array_rows a) i; item r k
  else Raise IndexError.

(** [for i in range(0, len(iterate_rec), 10): ax.annotate(i,
    xy=(iterate_rec[i, 0], iterate_rec[i, 1]), ...)]; the small random
    shift of the text is left out. *)
Fixpoint annotate (indices : list nat) (a : ndarray R)
  : pyresult (list (nat * (R * R))) :=
  match indices with
  | [] => Ok []
  | i :: rest =>
      u ← element a i 0;
      v ← element a i 1;
      tags ← annotate rest a;
      Ok ((i, (u, v)) :: tags)
  end.

(** [plot_trace(iterate_rec, ax, label, tags)], on the array that
    [iterate_rec.numpy()] is. *)
Definition plot_trace (iterate_rec : ndarray R) (tags : bool)
  : pyresult (trace R) :=
  let n_steps := length (array_rows iterate_rec) in
  xs ← column 0 iterate_rec;
  ys ← column 1 iterate_rec;
  marks ← (if tags
           then annotate (py_range 0 (length (array_rows iterate_rec)) 10)
                         iterate_rec
           else Ok []);
  Ok (Trace n_steps xs ys marks).

(** [np.linspace(start, stop, num)], in exact arithmetic: [num] points
    from [start] to [stop] at equal distances. *)
Definition np_linspace (start stop : Q) (num : nat) : list R :=
  map (λ i, lit (start + (stop - start)
                         * (inject_Z (Z.of_nat i)
                            / inject_Z (Z.of_nat (num - 1))))%Q)
      (seq 0 num).

(** [X, Y = np.meshgrid(x, y)]: [X[i, j] = x[j]] and [Y[i, j] = y[i]]. *)
Definition meshgrid (x y : list R) : list (list R) * list (list R) :=
  (map (λ _, x) y, map (λ yi, map (λ _, yi) x) y).

(** [np.concatenate((X[:, :, None], Y[:, :, None]), axis=2)
    .reshape(-1, 2)]: the pairs, row after row. *)
Definition grid_samples (X Y : list (list R)) : list (list R) :=
  concat (zip_with (zip_with (λ a b, [a; b])) X Y).

(** [Z.reshape(n, m)]: [n] rows of [m] elements, in order; the sizes
    must agree. *)
Fixpoint chunks (m n : nat) (l : list R) : list (list R) :=
  match n with
  | 0 => []
  | S n' => take m l :: chunks m n' (drop m l)
  end.

Definition reshape (n m : nat) (l : list R) : pyresult (list (list R)) :=
  if decide (length l = n * m) then Ok (chunks m n l) else Raise ValueError.

(** [plot_function(f, ax)] up to the call of [ax.contour(X, Y, Z)]: the
    grid [Z] of the values of [f], for the axes [x] and [y] and the
    sizes of the final [reshape].  A combination whose [forward] does
    not return a tensor is outside the model. *)
Definition plot_function_on (f : GaussianCombination R) (x y : list R)
    (n m : nat) : option (pyresult (list (list R))) :=
  let '(X, Y) := meshgrid x y in
  z ← GaussianCombination_forward f (Batch (grid_samples X Y));
  match z with
  | PyTensor t => Some (reshape n m t)
  | PyNum _ => None
  end.

Definition plot_function (f : GaussianCombination R)
  : option (pyresult (list (list R))) :=
  plot_function_on f (np_linspace (-3) 3 100) (np_linspace (-3) 3 100)
                   100 100.

End Plots.

(** * The vocabulary of the further statements *)

Section Reference.
Context {R : Type} `{Scalar R}.
Implicit Types (h : heap R) (o : tobj R) (x p : loc) (opt : optimizer R)
               (params : list loc) (f : objective R).

(** Adding to a zero of the library returns the other operand. *)
Definition add_zero_law : Prop := ∀ a : R, add zero a = a.

(** Every listed parameter names a tensor whose gradient, if set, has
    its shape. *)
Definition all_shaped params h : Prop :=
  Forall (λ p, ∃ o, h !! p = Some o ∧ shaped o) params.

Definition has_gradient h p : Prop := ∃ o, h !! p = Some o ∧ grad o ≠ None.
Definition lacks_gradient h p : Prop := ∃ o, h !! p = Some o ∧ grad o = None.

(** What one call of [step] makes of the value [v] of the single
    parameter, given its gradient [g]. *)
Definition advance opt (v g : list R) : list R :=
  match opt with
  | GradientDescent _ lr => zip_with (gd_rule lr) v g
  | _ => v
  end.

(** The descent written as a recursion on values: the points at which a
    step is made, the point that is reached, and whether the threshold
    was met. *)
Fixpoint descent f opt (n : nat) (v : list R)
  : list (list R) * (list R * bool) :=
  match n with
  | 0 => ([], (v, false))
  | S n' =>
      let g := gradient f v in
      if ltb (sum_sq g) tol then ([], (v, true))
      else let '(rows, e) := descent f opt n' (advance opt v g) in
           (v :: rows, e)
  end.

(** The messages of a verbose run that makes [k] steps from iteration
    [i] on: one at every tenth iteration, one on convergence. *)
Definition reports (i k : nat) (converged : bool) : list message :=
  map Iteration (List.filter (λ j, j mod 10 =? 0) (seq i k))
  ++ (if converged then [Converged (i + k)] else []).

(** Every row of the array has as many elements as the array has
    columns. *)
Definition rectangular (a : ndarray R) : Prop :=
  Forall (λ r, length r = n_columns a) (array_rows a).

(** The tag [t] sits at the first two elements of the row of its
    number. *)
Definition tag_of_row (rows : list (list R)) (t : nat * (R * R)) : Prop :=
  ∃ r, rows !! t.1 = Some r ∧ r !! 0 = Some t.2.1 ∧ r !! 1 = Some t.2.2.

End Reference.

(** The sum so far on the point, on the rest of the batch and on the
    batch: the starting number in all three, or tensors of which the
    third is the first before the second. *)
Inductive sums_agree {R : Type} : pyval R → pyval R → pyval R → Prop :=
| agree_start q : sums_agree (PyNum q) (PyNum q) (PyNum q)
| agree_tensor e es :
    sums_agree (PyTensor [e]) (PyTensor es) (PyTensor (e :: es)).

(** * The stopping rule in the words of its description *)

Section StoppingRule.
Context {R : Type} `{Scalar R}.
Implicit Types (h : heap R) (o : tobj R) (x : loc) (opt : optimizer R)
               (f : objective R).

(** The squared L2 norm of a vector: the sum of the squares of its
    elements. *)
Definition squared_norm (g : list R) : R :=
  foldr add zero (map (λ e, mul e e) g).

(** The first half of an iteration: [zero_grad], then [backward], after
    which the iterate holds the gradient [g] in the store [h2]. *)
Definition gradient_pass f x opt h opt1 h2 (g : list R) : Prop :=
  ∃ h1 o, zero_grad opt h = Ok (opt1, h1) ∧ backward f x h1 = Ok h2 ∧
          h2 !! x = Some o ∧ grad o = Some g.

(** The second half, of an iteration that goes on: the value of the
    iterate is put aside in a new tensor, and the optimizer makes its
    step. *)
Definition update_pass x opt1 h2 opt2 h4 : Prop :=
  ∃ o, h2 !! x = Some o ∧
       step opt1 (h2 ++ [Tensor (data o) None]) = Ok (opt2, h4).

(** A run with a budget of [n] iterations, from an optimizer and a store
    to an optimizer and a store, with the numbers it compares with the
    threshold and whether it stops early.  Without budget nothing
    happens.  An iteration whose gradient has a squared norm below the
    threshold is the last one, and makes no step.  Any other iteration
    makes its step and leaves the rest of the budget to the run that
    follows. *)
Inductive iterations f x
  : nat → optimizer R → heap R → list R → bool → optimizer R → heap R
    → Prop :=
| budget_spent opt h :
    iterations f x 0 opt h [] false opt h
| threshold_met n opt h opt1 h2 g :
    gradient_pass f x opt h opt1 h2 g →
    ltb (squared_norm g) tol = true →
    iterations f x (S n) opt h [squared_norm g] true opt1 h2
| threshold_missed n opt h opt1 h2 g opt2 h4 ts b opt' h' :
    gradient_pass f x opt h opt1 h2 g →
    ltb (squared_norm g) tol = false →
    update_pass x opt1 h2 opt2 h4 →
    iterations f x n opt2 h4 ts b opt' h' →
    iterations f x (S n) opt h (squared_norm g :: ts) b opt' h'.

End StoppingRule.

(** * Sample inputs, over the rationals *)

Module Samples.
Local Open Scope Q_scope.

(** [init = torch.tensor([0.8, 0.8])] and the store that holds
    [init.clone().requires_grad_()] alone. *)
Definition init : list Q := [4 # 5; 4 # 5].
Definition fresh : heap Q := [Tensor init None].

(** A constant objective and a linear one, with their gradients. *)
Definition flat : objective Q := Objective (λ _, 0) (λ v, map (λ _, 0) v).
Definition slope : objective Q := Objective (λ v, hd 0 v) (λ v, map (λ _, 1) v).

(** A store after a backward pass: two parameters with gradients, a
    tensor without one. *)
Definition trained : heap Q :=
  [Tensor [1; 2] (Some [3; 4]); Tensor [5] (Some [1 # 2]); Tensor [7] None].

(** One parameter with gradient [1], listed twice. *)
Definition shared : heap Q := [Tensor [1] (Some [1])].

(** The iterate with gradient [(1, 1)] and a velocity [(0, 0)]. *)
Definition moving : heap Q :=
  [Tensor init (Some [1; 1]); Tensor [0; 0] None].

End Samples.

(** The combination [f] of the notebook, over the reals. *)
Definition toy_f : GaussianCombination R :=
  MkCombination [MkGaussian p1 m1; MkGaussian p2 m2] [w1; w2].

(** * Properties of the store operations *)

Section Frames.
Context {R : Type} `{Scalar R}.
Implicit Types (h : heap R) (o : tobj R) (x p c : loc) (opt : optimizer R).

Lemma deref_Some h p o : h !! p = Some o → deref p h = Ok o.
Proof. unfold deref. by intros ->. Qed.

Lemma only_writes_refl x h : only_writes x h h.
Proof. by split. Qed.

Lemma only_writes_trans x h1 h2 h3 :
  only_writes x h1 h2 → only_writes x h2 h3 → only_writes x h1 h3.
Proof.
  intros [L1 F1] [L2 F2]. split; [congruence|].
  intros l Hl. by rewrite F2, F1.
Qed.

Lemma only_writes_insert x h o : only_writes x h (<[x := o]> h).
Proof.
  split; [apply length_insert|].
  intros l Hl. by apply list_lookup_insert_ne.
Qed.

Lemma shaped_zero_one o : shaped o → shaped (zero_one o).
Proof.
  unfold zero_one, shaped. destruct (grad o) as [g|] eqn:E; simpl.
  - intros Hs g' [= <-]. unfold zeros_like. rewrite length_map. by apply Hs.
  - intros _ g Hg. congruence.
Qed.

Lemma data_zero_one o : data (zero_one o) = data o.
Proof. unfold zero_one. by destruct (grad o). Qed.

(** [zero_grad] of the notebook's classes on a single parameter. *)
Lemma zero_loop_single h x o :
  h !! x = Some o → zero_loop [x] h = Ok (<[x := zero_one o]> h).
Proof. intros Hx. cbn. by rewrite (deref_Some _ _ _ Hx). Qed.

Lemma zero_grad_single opt h x o :
  get_iterate opt = Ok x → well_behaved opt x →
  h !! x = Some o → shaped o →
  ∃ h' o', zero_grad opt h = Ok (opt, h') ∧ h' !! x = Some o' ∧ shaped o' ∧
           length (data o') = length (data o) ∧
           only_writes x h h' ∧ (own opt → data o' = data o).
Proof.
  intros Hit Hwb Hx Ho.
  assert (Hlt : x < length h) by (by eapply lookup_lt_Some).
  assert (Hown : ∃ h' o', zero_loop [x] h = Ok h' ∧ h' !! x = Some o' ∧
                     shaped o' ∧ length (data o') = length (data o) ∧
                     only_writes x h h' ∧ data o' = data o).
  { rewrite (zero_loop_single _ _ _ Hx).
    exists (<[x := zero_one o]> h), (zero_one o).
    split; [done|]. split; [by apply list_lookup_insert_eq|].
    split; [by apply shaped_zero_one|].
    rewrite data_zero_one. split; [done|].
    split; [apply only_writes_insert|done]. }
  destruct Hown as (h0 & o0 & Hz0 & ? & ? & ? & ? & ?).
  destruct opt as [ps lr|ps lr mu vs|gs s z]; cbn in Hit, Hwb.
  - destruct ps as [|x' [|? ?]]; try discriminate. injection Hit as ->.
    exists h0, o0. cbn [zero_grad]. rewrite Hz0. cbn.
    by repeat (split; [done|]).
  - destruct ps as [|x' [|? ?]]; try discriminate. injection Hit as ->.
    exists h0, o0. cbn [zero_grad]. rewrite Hz0. cbn.
    by repeat (split; [done|]).
  - cbn. destruct Hwb as [_ Hz].
    destruct (Hz h o Hx Ho) as (h' & o' & -> & Hx' & Ho' & Hl & Hw).
    exists h', o'. cbn. repeat (split; [done|]). intros [].
Qed.

Lemma backward_single (f : objective R) h x o :
  grad_shape f → h !! x = Some o → shaped o →
  ∃ g, backward f x h = Ok (<[x := Tensor (data o) (Some g)]> h) ∧
       length g = length (data o).
Proof.
  intros Hf Hx Ho. unfold backward. rewrite (deref_Some _ _ _ Hx). cbn.
  unfold accumulate. destruct (grad o) as [g0|] eqn:E.
  - rewrite decide_True by (by rewrite Hf; apply Ho). cbn.
    eexists; split; [done|].
    rewrite length_zip_with, Hf, (Ho _ E). lia.
  - cbn. eexists; split; [done|]. apply Hf.
Qed.

Lemma gd_update_shaped lr o g :
  grad o = Some g → length g = length (data o) →
  ∃ o', gd_update lr o = Ok o' ∧ shaped o' ∧ grad o' = Some g ∧
        data o' = zip_with (λ a gi, sub a (mul lr gi)) (data o) g.
Proof.
  intros Hg Hl. unfold gd_update. rewrite Hg, decide_True by done.
  eexists; split; [done|]. split; [|done].
  intros g' Hg'. cbn in *. injection Hg' as <-.
  rewrite length_zip_with. lia.
Qed.

Lemma step_single opt h x o g :
  get_iterate opt = Ok x → well_behaved opt x →
  h !! x = Some o → grad o = Some g → length g = length (data o) →
  ∃ h' o', step opt h = Ok (opt, h') ∧ h' !! x = Some o' ∧ shaped o' ∧
        length (data o') = length (data o) ∧ only_writes x h h' ∧
        (∀ ps lr mu vs, opt = MomentumGradientDescent ps lr mu vs → h' = h).
Proof.
  intros Hit Hwb Hx Hg Hl.
  assert (Hlt : x < length h) by (by eapply lookup_lt_Some).
  assert (Ho : shaped o) by (intros g' Hg'; congruence).
  destruct opt as [ps lr|ps lr mu vs|gs s z]; cbn in *.
  - destruct ps as [|x' [|? ?]]; try discriminate. injection Hit as ->.
    destruct (gd_update_shaped lr o g Hg Hl) as (o' & Hup & Ho' & _ & Hd).
    cbn. rewrite (deref_Some _ _ _ Hx). cbn. rewrite Hup. cbn.
    exists (<[x := o']> h), o'. split; [done|].
    split; [by apply list_lookup_insert_eq|]. split; [done|].
    split; [rewrite Hd, length_zip_with; lia|].
    split; [apply only_writes_insert|done].
  - exists h, o. by repeat (split; [done || apply only_writes_refl|]).
  - destruct Hwb as [Hs _].
    destruct (Hs h o Hx Ho) as (h' & o' & -> & Hx' & Ho' & Hl' & Hw).
    exists h', o'. cbn. by repeat (split; [done|]).
Qed.

Lemma only_writes_frame x h h' : only_writes x h h' → frame x h h'.
Proof. intros [L F]. split; [lia|]. intros l Hl _. by apply F. Qed.

Lemma frame_trans x h1 h2 h3 : frame x h1 h2 → frame x h2 h3 → frame x h1 h3.
Proof.
  intros [L1 F1] [L2 F2]. split; [lia|].
  intros l Hl Hlt. rewrite F2 by (done || lia). by apply F1.
Qed.

Lemma frame_alloc x h o : frame x h (h ++ [o]).
Proof.
  split; [rewrite length_app; lia|].
  intros l _ Hlt. by apply lookup_app_l.
Qed.

Lemma recorded_frame x cs vs h h' :
  frame x h h' → recorded x cs vs h → recorded x cs vs h'.
Proof.
  intros [L F] Hrec. eapply Forall2_impl; [exact Hrec|].
  intros c v [Hc [g Hg]].
  split; [done|]. exists g. rewrite F; [done..|]. by eapply lookup_lt_Some.
Qed.

Lemma read_rows_recorded x cs vs h :
  recorded x cs vs h → read_rows cs h = Ok vs.
Proof.
  induction 1 as [|c v cs vs [_ [g Hg]] _ IH]; [done|].
  cbn. rewrite (deref_Some _ _ _ Hg). cbn. by rewrite IH.
Qed.

Lemma stopping_cons n v ts b :
  ltb v tol = false → stopping n ts b → stopping (S n) (v :: ts) b.
Proof.
  intros Hv [ts' Hl Hall|ts' v' Hl Hall Hv'].
  - apply ran_out; [simpl; lia|by constructor].
  - rewrite app_comm_cons. apply left_early; [simpl; lia|by constructor|done].
Qed.

Lemma stopping_steps n ts b :
  stopping n ts b →
  S (if b then length ts - 1 else length ts)
  = (if b then length (zero :: ts) - 1 else length (zero :: ts)).
Proof.
  intros [ts' Hl Hall|ts' v' Hl Hall Hv']; simpl; [done|].
  rewrite length_app. simpl. lia.
Qed.

Lemma print_ok verbose x h o m out :
  h !! x = Some o → (verbose = true → 2 ≤ length (data o)) →
  ∃ out', print verbose x h m out = Ok out'.
Proof.
  intros Hx Hp. unfold print, report. destruct verbose; [|by eexists].
  rewrite (deref_Some _ _ _ Hx). cbn.
  rewrite decide_True by (by apply Hp). cbn. by eexists.
Qed.

Lemma minimize_loop_spec (f : objective R) opt x verbose n :
  grad_shape f → get_iterate opt = Ok x → well_behaved opt x →
  ∀ i r, optim r = opt → broke r = false → tensor_ok (final r) x →
       printable verbose (final r) x →
       recorded x (iterate_record r) (stepped r) (final r) →
  ∃ r' ts vs,
    minimize_loop f x verbose i n r = Ok r' ∧ optim r' = opt ∧
    tensor_ok (final r') x ∧
    recorded x (iterate_record r') (stepped r') (final r') ∧
    tested r' = tested r ++ ts ∧ stepped r' = stepped r ++ vs ∧
    stopping n ts (broke r') ∧
    length vs = (if broke r' then length ts - 1 else length ts) ∧
    frame x (final r) (final r') ∧
    (∀ ps lr mu ws o, opt = MomentumGradientDescent ps lr mu ws →
       final r !! x = Some o →
       (∃ o', final r' !! x = Some o' ∧ data o' = data o) ∧
       Forall (λ v, v = data o) vs).
Proof.
  intros Hf Hit Hwb. induction n as [|n IH]; intros i r Hopt Hb Hok Hpr Hrec.
  - exists r, [], []. cbn. rewrite !app_nil_r, Hb.
    repeat (split; [done|]). split; [by apply ran_out|]. split; [done|].
    split; [by split|].
    intros ps lr mu ws o _ Hx. split; [by exists o|done].
  - destruct r as [h opt0 cs out tst stp b].
    cbn in Hopt, Hb, Hok, Hpr, Hrec. subst.
    destruct Hok as (o & Hx & Ho).
    assert (Hp : verbose = true → 2 ≤ length (data o)).
    { intros Hv. destruct (Hpr Hv) as (o' & Hx' & Hlen). congruence. }
    destruct (zero_grad_single opt h x o Hit Hwb Hx Ho)
      as (h1 & o1 & Hz & Hx1 & Ho1 & Hl1 & Hw1 & Hd1).
    destruct (backward_single f h1 x o1 Hf Hx1 Ho1) as (g & Hbw & Hg).
    assert (Hlt1 : x < length h1) by (by eapply lookup_lt_Some).
    set (o2 := Tensor (data o1) (Some g)) in *.
    set (h2 := <[x := o2]> h1) in *.
    assert (Hx2 : h2 !! x = Some o2) by (by apply list_lookup_insert_eq).
    assert (Hw2 : only_writes x h h2).
    { eapply only_writes_trans; [exact Hw1|apply only_writes_insert]. }
    assert (Hgg : get_grad x h2 = Ok g).
    { unfold get_grad. by rewrite (deref_Some _ _ _ Hx2). }
    assert (Hp2 : verbose = true → 2 ≤ length (data o2)).
    { intros Hv. cbn. rewrite Hl1. by apply Hp. }
    cbn [minimize_loop final optim iterate_record tested stepped printed].
    rewrite Hz. cbn -[print Nat.modulo]. rewrite Hbw. cbn -[print Nat.modulo].
    rewrite Hgg. cbn -[print Nat.modulo].
    destruct (ltb (sum_sq g) tol) eqn:Hv.
    + destruct (print_ok verbose x h2 o2 (Converged i) out Hx2 Hp2)
        as (out' & ->).
      eexists _, [sum_sq g], []. cbn. rewrite app_nil_r.
      split; [done|]. split; [done|].
      split; [exists o2; split; [done|]; by intros g' [= <-]|].
      split; [eapply recorded_frame; [|exact Hrec];
              by apply only_writes_frame|].
      split; [done|]. split; [done|].
      split; [by apply (left_early (S n) []); [simpl; lia|constructor|]|].
      split; [done|]. split; [by apply only_writes_frame|].
      intros ps lr mu ws o' -> Hx'. rewrite Hx in Hx'. injection Hx' as <-.
      split; [|done]. exists o2. split; [done|]. by apply Hd1.
    + set (c := length h2).
      set (h3 := h2 ++ [Tensor (data o1) None]).
      assert (Hx3 : h3 !! x = Some o2).
      { unfold h3. rewrite lookup_app_l; [done|].
        unfold h2. by rewrite length_insert. }
      assert (Hcl : clone_data x h2 = Ok (c, h3)).
      { unfold clone_data. by rewrite (deref_Some _ _ _ Hx2). }
      rewrite Hcl. cbn -[print Nat.modulo].
      destruct (print_ok (verbose && (i mod 10 =? 0)) x h3 o2
                  (Iteration i) out Hx3) as (out' & ->).
      { intros [Hvb _]%andb_true_iff. by apply Hp2. }
      cbn. rewrite (deref_Some _ _ _ Hx3). cbn.
      destruct (step_single opt h3 x o2 g Hit Hwb Hx3 eq_refl Hg)
        as (h4 & o4 & Hst & Hx4 & Ho4 & Hl4 & Hw4 & Hm4).
      rewrite Hst. cbn.
      assert (Hcx : c ≠ x).
      { unfold c, h2. rewrite length_insert. lia. }
      assert (Hfr : frame x h h4).
      { eapply frame_trans; [by apply only_writes_frame|].
        eapply frame_trans; [apply frame_alloc|by apply only_writes_frame]. }
      edestruct (IH (S i) (Run h4 opt (cs ++ [c]) out' (tst ++ [sum_sq g])
                              (stp ++ [data o1]) false))
        as (r' & ts & vs & Hrun & Hopt' & Hok' & Hrec' & Ht & Hs & Hstop
            & Hlen & Hfr' & Hmom); [done|done|by exists o4| | |].
      { intros Hvb. exists o4. split; [done|]. rewrite Hl4. by apply Hp2. }
      { cbn. apply Forall2_app; [by eapply recorded_frame|].
        constructor; [|constructor]. split; [done|]. exists None.
        destruct Hw4 as [_ ->]; [|done]. unfold h3, c.
        by rewrite list_lookup_middle. }
      exists r', (sum_sq g :: ts), (data o1 :: vs).
      cbn in Ht, Hs. rewrite <- !app_assoc in Ht, Hs.
      split; [done|]. split; [done|]. split; [done|]. split; [done|].
      split; [done|]. split; [done|].
      split; [by apply stopping_cons|].
      split; [cbn [length]; rewrite Hlen; apply (stopping_steps _ _ _ Hstop)|].
      split; [by eapply frame_trans|].
      intros ps lr mu ws o' -> Hx'. cbn in Hx'.
      rewrite Hx in Hx'. injection Hx' as <-.
      assert (Hd : data o1 = data o) by (by apply Hd1).
      pose proof (Hm4 _ _ _ _ eq_refl) as ->.
      destruct (Hmom _ _ _ _ o2 eq_refl Hx3) as [Hfin Hall].
      cbn in Hfin, Hall. rewrite Hd in Hfin, Hall.
      split; [done|]. constructor; [done|done].
Qed.

End Frames.

(** * The optimizer methods *)

Section Methods.
Context {R : Type} `{Scalar R}.
Implicit Types (h : heap R) (o : tobj R) (x p l : loc) (params : list loc).

Local Ltac membership :=
  rewrite ?elem_of_cons, ?elem_of_nil in *; tauto.

Lemma zero_one_idemp o : zero_one (zero_one o) = zero_one o.
Proof.
  unfold zero_one. destruct (grad o) as [g|] eqn:E; cbn; [|by rewrite E].
  unfold zeros_like. by rewrite map_map.
Qed.

Lemma allocated_insert params h p o :
  allocated params h → allocated params (<[p := o]> h).
Proof.
  intros Hall. eapply Forall_impl; [exact Hall|]. intros q [oq Hq].
  destruct (decide (p = q)) as [->|Hne].
  - exists o. apply list_lookup_insert_eq. by eapply lookup_lt_Some.
  - exists oq. by rewrite list_lookup_insert_ne.
Qed.

Lemma zero_loop_lookup params h :
  allocated params h →
  ∃ h', zero_loop params h = Ok h' ∧ length h' = length h ∧
        ∀ l, h' !! l
             = (λ o, if decide (l ∈ params) then zero_one o else o) <$> h !! l.
Proof.
  revert h. induction params as [|p ps IH]; intros h Hall.
  - exists h. split; [done|]. split; [done|]. intros l.
    destruct (h !! l); cbn; [|done]. by rewrite decide_False by membership.
  - inversion Hall as [|? ? [o Hp] Hps]; subst.
    destruct (IH (<[p := zero_one o]> h)) as (h' & Hrun & Hlen & Hlook).
    { by apply allocated_insert. }
    exists h'. cbn. rewrite (deref_Some _ _ _ Hp). cbn.
    split; [done|]. split; [by rewrite Hlen, length_insert|].
    intros l. rewrite Hlook.
    destruct (decide (l = p)) as [->|Hne].
    + rewrite list_lookup_insert_eq by (by eapply lookup_lt_Some).
      rewrite Hp. cbn. rewrite (decide_True (P := p ∈ p :: ps)) by membership.
      destruct (decide (p ∈ ps)); [by rewrite zero_one_idemp|done].
    + rewrite list_lookup_insert_ne by done.
      destruct (h !! l); cbn; [|done].
      destruct (decide (l ∈ ps)).
      * by rewrite decide_True by membership.
      * by rewrite decide_False by membership.
Qed.

Lemma gd_step_lookup lr params h :
  NoDup params → with_gradients params h →
  ∃ h', gd_step lr params h = Ok h' ∧ length h' = length h ∧
        ∀ l, h' !! l
             = (λ o, if decide (l ∈ params)
                     then Tensor (zip_with (gd_rule lr) (data o)
                                           (default [] (grad o))) (grad o)
                     else o) <$> h !! l.
Proof.
  revert h. induction params as [|p ps IH]; intros h Hnd Hall.
  - exists h. split; [done|]. split; [done|]. intros l.
    destruct (h !! l); cbn; [|done]. by rewrite decide_False by membership.
  - inversion Hnd as [|? ? Hp_notin Hnd']; subst.
    inversion Hall as [|? ? (o & g & Hp & Hg & Hl) Hps]; subst.
    destruct (gd_update_shaped lr o g Hg Hl) as (o' & Hup & _ & Hg' & Hd').
    destruct (IH (<[p := o']> h)) as (h' & Hrun & Hlen & Hlook); [done| |].
    { apply Forall_forall. intros q Hq.
      destruct (proj1 (Forall_forall _ _) Hps q Hq) as (oq & gq & Hoq & Hgq).
      exists oq, gq. split; [|done].
      rewrite list_lookup_insert_ne; [done|]. intros ->. done. }
    exists h'. cbn. rewrite (deref_Some _ _ _ Hp). cbn. rewrite Hup. cbn.
    split; [done|]. split; [by rewrite Hlen, length_insert|].
    intros l. rewrite Hlook.
    destruct (decide (l = p)) as [->|Hne].
    + rewrite list_lookup_insert_eq by (by eapply lookup_lt_Some).
      rewrite Hp. cbn. rewrite decide_False by done.
      rewrite decide_True by membership.
      rewrite Hg. cbn. destruct o' as [d' g']. cbn in *. by subst.
    + rewrite list_lookup_insert_ne by done.
      destruct (h !! l); cbn; [|done].
      destruct (decide (l ∈ ps)).
      * by rewrite decide_True by membership.
      * by rewrite decide_False by membership.
Qed.

End Methods.

(** * The driver *)

Section Driver.
Context {R : Type} `{Scalar R}.
Implicit Types (h : heap R) (o : tobj R) (x : loc) (opt : optimizer R)
               (f : objective R) (r : run R).

Lemma stopping_length n ts b : stopping n ts b → length ts ≤ n.
Proof.
  intros [ts' Hl _|ts' v Hl _ _]; [lia|]. rewrite length_app. simpl. lia.
Qed.

Lemma stopping_pointwise n ts b i v :
  stopping n ts b → ts !! i = Some v →
  (ltb v tol = true ↔ b = true ∧ S i = length ts).
Proof.
  intros [ts' Hl Hall|ts' v' Hl Hall Hv'] Hi.
  - rewrite (proj1 (Forall_lookup _ _) Hall i v Hi). split; [done|].
    by intros [? _].
  - rewrite length_app. simpl.
    destruct (decide (i < length ts')) as [Hlt|Hge].
    + rewrite lookup_app_l in Hi by done.
      rewrite (proj1 (Forall_lookup _ _) Hall i v Hi). split; [done|].
      intros [_ ?]. lia.
    + assert (i = length ts') as ->.
      { apply lookup_lt_Some in Hi. rewrite length_app in Hi. simpl in Hi. lia. }
      rewrite list_lookup_middle in Hi by done. injection Hi as <-.
      split; [intros _; split; [done|lia]|done].
Qed.

Lemma minimize_run_spec f opt x max_iter verbose h :
  grad_shape f → get_iterate opt = Ok x → well_behaved opt x →
  tensor_ok h x → printable verbose h x →
  ∃ r, minimize_run f opt max_iter verbose h = Ok r ∧ optim r = opt ∧
       tensor_ok (final r) x ∧
       recorded x (iterate_record r) (stepped r) (final r) ∧
       stopping max_iter (tested r) (broke r) ∧
       length (stepped r)
       = (if broke r then length (tested r) - 1 else length (tested r)) ∧
       frame x h (final r) ∧
       (∀ ps lr mu ws o, opt = MomentumGradientDescent ps lr mu ws →
          h !! x = Some o →
          (∃ o', final r !! x = Some o' ∧ data o' = data o) ∧
          Forall (λ v, v = data o) (stepped r)).
Proof.
  intros Hf Hit Hwb Hok Hpr.
  destruct (minimize_loop_spec f opt x verbose max_iter Hf Hit Hwb 0
              (start opt h))
    as (r & ts & vs & Hrun & Hopt & Hok' & Hrec & Ht & Hs & Hstop & Hlen
        & Hfr & Hmom); [done|done|done|done|constructor|].
  cbn in Ht, Hs. subst ts vs.
  exists r. unfold minimize_run. rewrite Hit. cbn.
  by repeat (split; [done|]).
Qed.

End Driver.

(** * The claims on the optimizers *)

Section OptimizerClaims.
Context {R : Type} `{Scalar R}.
Implicit Types (h : heap R) (o : tobj R) (x p l : loc) (params : list loc).

(** C2, as amended.  For a list of pairwise distinct parameters that all
    hold a gradient, [GradientDescent.step] returns and replaces every
    element [x] of every listed parameter by [x − lr·g], [g] being the
    matching element of that parameter's gradient; gradients, shapes,
    the optimizer and all other tensors are left as they were. *)
Theorem GradientDescent_step_rule params (lr : R) h :
  NoDup params → with_gradients params h →
  ∃ h', step (GradientDescent params lr) h
        = Ok (GradientDescent params lr, h') ∧
        length h' = length h ∧
        (∀ p o, p ∈ params → h !! p = Some o →
           ∃ o' g, grad o = Some g ∧ h' !! p = Some o' ∧ grad o' = Some g ∧
                   length (data o') = length (data o) ∧
                   ∀ i xi gi, data o !! i = Some xi → g !! i = Some gi →
                              data o' !! i = Some (gd_rule lr xi gi)) ∧
        (∀ l, l ∉ params → h' !! l = h !! l).
Proof.
  intros Hnd Hall.
  destruct (gd_step_lookup lr params h Hnd Hall) as (h' & Hrun & Hlen & Hlook).
  exists h'. cbn. rewrite Hrun. cbn.
  split; [done|]. split; [done|]. split.
  - intros p o Hp Ho.
    destruct (proj1 (Forall_forall _ _) Hall p Hp) as (o2 & g & Ho2 & Hg & Hl).
    rewrite Ho in Ho2. injection Ho2 as <-.
    eexists _, g. split; [done|].
    rewrite Hlook, Ho. cbn. rewrite decide_True by done.
    split; [done|]. cbn. rewrite Hg. cbn.
    split; [done|]. split; [rewrite length_zip_with; lia|].
    intros i xi gi Hxi Hgi. rewrite lookup_zip_with, Hxi. cbn. by rewrite Hgi.
  - intros l Hl. rewrite Hlook. destruct (h !! l); cbn; [|done].
    by rewrite decide_False by done.
Qed.

(** C9.  For every list of parameters and every store that holds them,
    [GradientDescent.zero_grad] returns; a listed parameter with a
    gradient gets a gradient of zeros of the same length, one without
    stays without; the value of every tensor, every tensor that is not
    listed, the list of parameters and the learning rate are unchanged. *)
Theorem GradientDescent_zero_grad_effect params (lr : R) h :
  allocated params h →
  ∃ h', zero_grad (GradientDescent params lr) h
        = Ok (GradientDescent params lr, h') ∧
        length h' = length h ∧
        ∀ l o, h !! l = Some o →
          ∃ o', h' !! l = Some o' ∧ data o' = data o ∧
                (l ∈ params →
                   (∀ g, grad o = Some g →
                         grad o' = Some (replicate (length g) zero)) ∧
                   (grad o = None → grad o' = None)) ∧
                (l ∉ params → o' = o).
Proof.
  intros Hall.
  destruct (zero_loop_lookup params h Hall) as (h' & Hrun & Hlen & Hlook).
  exists h'. cbn. rewrite Hrun. cbn.
  split; [done|]. split; [done|].
  intros l o Ho. rewrite Hlook, Ho. cbn.
  destruct (decide (l ∈ params)) as [Hin|Hout].
  - exists (zero_one o). split; [done|]. split; [apply data_zero_one|].
    split; [|done]. intros _. unfold zero_one. split.
    + intros g Hg. rewrite Hg. cbn. f_equal. unfold zeros_like.
      clear Hg. induction g as [|a g IH]; [done|]. cbn. by rewrite IH.
    + intros Hg. by rewrite Hg.
  - exists o. by repeat split.
Qed.

End OptimizerClaims.

(** * The claims on [minimize] *)

Section DriverClaims.
Context {R : Type} `{Scalar R}.
Implicit Types (h : heap R) (o : tobj R) (x : loc) (opt : optimizer R)
               (f : objective R) (r : run R).

Lemma torch_cat_recorded x cs vs h :
  recorded x cs vs h → 1 ≤ length vs → torch_cat cs h = Ok vs.
Proof.
  intros Hrec Hlen. pose proof (read_rows_recorded _ _ _ _ Hrec) as Hrows.
  destruct Hrec; [simpl in Hlen; lia|done].
Qed.

Lemma torch_cat_rows x cs vs h rows :
  recorded x cs vs h → torch_cat cs h = Ok rows → rows = vs.
Proof.
  intros Hrec. pose proof (read_rows_recorded _ _ _ _ Hrec) as Hrows.
  destruct cs; [done|]. unfold torch_cat. rewrite Hrows. by intros [= <-].
Qed.

Lemma sum_sq_squared_norm (g : list R) : sum_sq g = squared_norm g.
Proof.
  unfold sum_sq, squared_norm. induction g as [|e g IH]; [done|].
  cbn. by rewrite IH.
Qed.

Lemma get_grad_inv x h (g : list R) :
  get_grad x h = Ok g → ∃ o, h !! x = Some o ∧ grad o = Some g.
Proof.
  unfold get_grad, deref. destruct (h !! x) as [o|] eqn:Hx; [|discriminate].
  cbn. destruct (grad o) as [g'|] eqn:Hg; [|discriminate].
  intros [= <-]. by exists o.
Qed.

Lemma clone_data_inv x h c h3 :
  clone_data x h = Ok (c, h3) →
  ∃ o, h !! x = Some o ∧ h3 = h ++ [Tensor (data o) None].
Proof.
  unfold clone_data, deref. destruct (h !! x) as [o|] eqn:Hx; [|discriminate].
  cbn. intros [= _ <-]. by exists o.
Qed.

(** The loop, whenever it returns, has made a run of the description. *)
Lemma minimize_loop_iterations f x verbose n :
  ∀ i r r', broke r = false →
    minimize_loop f x verbose i n r = Ok r' →
    ∃ ts, tested r' = tested r ++ ts ∧
          iterations f x n (optim r) (final r) ts (broke r') (optim r')
                     (final r').
Proof.
  induction n as [|n IH]; intros i r r' Hb Hrun.
  - cbn in Hrun. injection Hrun as <-. exists []. rewrite app_nil_r, Hb.
    split; [done|constructor].
  - cbn [minimize_loop] in Hrun.
    destruct (zero_grad (optim r) (final r)) as [[opt1 h1]|] eqn:Hz;
      [|discriminate].
    cbn [mbind pyresult_bind] in Hrun.
    destruct (backward f x h1) as [h2|] eqn:Hbw; [|discriminate].
    cbn [mbind pyresult_bind] in Hrun.
    destruct (get_grad x h2) as [g|] eqn:Hg; [|discriminate].
    cbn [mbind pyresult_bind] in Hrun.
    destruct (get_grad_inv _ _ _ Hg) as (o & Hx & Hgo).
    assert (Hpass : gradient_pass f x (optim r) (final r) opt1 h2 g)
      by (by exists h1, o).
    rewrite sum_sq_squared_norm in Hrun.
    destruct (ltb (squared_norm g) tol) eqn:Hv.
    + destruct (print verbose x h2 (Converged i) (printed r)) as [out|];
        [|discriminate].
      cbn [mbind pyresult_bind] in Hrun. injection Hrun as <-.
      exists [squared_norm g]. split; [done|]. cbn.
      by apply threshold_met.
    + destruct (clone_data x h2) as [[c h3]|] eqn:Hcl; [|discriminate].
      cbn [mbind pyresult_bind] in Hrun.
      destruct (clone_data_inv _ _ _ _ Hcl) as (o' & Hx' & ->).
      destruct (print (verbose && (i mod 10 =? 0)) x
                      (h2 ++ [Tensor (data o') None]) (Iteration i)
                      (printed r)) as [out|]; [|discriminate].
      cbn [mbind pyresult_bind] in Hrun.
      destruct (deref x (h2 ++ [Tensor (data o') None])) as [o3|];
        [|discriminate].
      cbn [mbind pyresult_bind] in Hrun.
      destruct (step opt1 (h2 ++ [Tensor (data o') None]))
        as [[opt2 h4]|] eqn:Hst; [|discriminate].
      cbn [mbind pyresult_bind] in Hrun.
      apply IH in Hrun as (ts & Ht & Hits); [|done].
      cbn in Ht, Hits. exists (squared_norm g :: ts).
      split; [by rewrite Ht, <- app_assoc|].
      eapply threshold_missed; [exact Hpass|exact Hv| |exact Hits].
      by exists o'.
Qed.

Lemma minimize_run_iterations f opt x max_iter verbose h r :
  get_iterate opt = Ok x →
  minimize_run f opt max_iter verbose h = Ok r →
  iterations f x max_iter opt h (tested r) (broke r) (optim r) (final r).
Proof.
  intros Hit. unfold minimize_run. rewrite Hit. cbn [mbind pyresult_bind].
  intros Hrun.
  apply minimize_loop_iterations in Hrun as (ts & Ht & Hits); [|done].
  cbn in Ht, Hits. by rewrite Ht.
Qed.

(** C7.  When the first gradient that [minimize] computes has a sum of
    squares below [1e-6], the loop is left at once with an empty
    [iterate_record], and [torch.cat] of the empty list raises. *)
Theorem minimize_converged_at_start f opt x n verbose h opt1 h1 h2 g :
  get_iterate opt = Ok x →
  zero_grad opt h = Ok (opt1, h1) → backward f x h1 = Ok h2 →
  get_grad x h2 = Ok g → ltb (sum_sq g) tol = true →
  printable verbose h2 x →
  minimize_run f opt (S n) verbose h
  = Ok (Run h2 opt1 [] (if verbose then [Converged 0] else [])
            [sum_sq g] [] true) ∧
  minimize f opt (S n) verbose h = Raise RuntimeError.
Proof.
  intros Hit Hz Hb Hg Hv Hpr.
  assert (print verbose x h2 (Converged 0) []
          = Ok (if verbose then [Converged 0] else [])) as Hprint.
  { unfold print, report. destruct verbose; [|done].
    destruct (Hpr eq_refl) as (o & Hx & Hlen).
    rewrite (deref_Some _ _ _ Hx). cbn. by rewrite decide_True by done. }
  assert (minimize_run f opt (S n) verbose h
          = Ok (Run h2 opt1 [] (if verbose then [Converged 0] else [])
                    [sum_sq g] [] true)) as Hrun.
  { unfold minimize_run. rewrite Hit. cbn -[print]. rewrite Hz. cbn -[print].
    rewrite Hb. cbn -[print]. rewrite Hg. cbn -[print]. rewrite Hv.
    by rewrite Hprint. }
  split; [done|]. unfold minimize. by rewrite Hrun.
Qed.


(** C6.  As written, [MomentumGradientDescent.step] changes nothing: it
    returns the optimizer and the store it was given.  So a run of
    [minimize] with it never moves the iterate: the iterate ends with
    the value it started with, every step was called at that value, the
    velocities are as they were, and every row that is returned is that
    value. *)
Theorem MomentumGradientDescent_never_moves f params (lr mu : R) vs :
  (∀ h, step (MomentumGradientDescent params lr mu vs) h
        = Ok (MomentumGradientDescent params lr mu vs, h)) ∧
  (∀ x max_iter verbose h o,
     grad_shape f → params = [x] → h !! x = Some o → shaped o →
     (verbose = true → 2 ≤ length (data o)) →
     ∃ r o', minimize_run f (MomentumGradientDescent params lr mu vs)
                          max_iter verbose h = Ok r ∧
             final r !! x = Some o' ∧ data o' = data o ∧
             Forall (λ v, v = data o) (stepped r) ∧
             (∀ l, l ∈ vs → l ≠ x → l < length h → final r !! l = h !! l) ∧
             (∀ rows, minimize f (MomentumGradientDescent params lr mu vs)
                               max_iter verbose h = Ok rows →
                      Forall (λ v, v = data o) rows)).
Proof.
  split; [done|]. intros x max_iter verbose h o Hf -> Hx Ho Hp.
  destruct (minimize_run_spec f (MomentumGradientDescent [x] lr mu vs)
              x max_iter verbose h Hf eq_refl I)
    as (r & Hrun & _ & _ & Hrec & _ & _ & Hfr & Hmom);
    [by exists o|intros Hv; exists o; split; [done|by apply Hp]|].
  destruct (Hmom _ _ _ _ o eq_refl Hx) as [(o' & Hx' & Hd) Hall].
  exists r, o'. split; [done|]. split; [done|]. split; [done|].
  split; [done|]. split.
  - intros l _ Hl Hlt. by apply Hfr.
  - intros rows. unfold minimize. rewrite Hrun. cbn.
    intros Hcat. by rewrite (torch_cat_rows _ _ _ _ _ Hrec Hcat).
Qed.

End DriverClaims.

(** * The claims on sample inputs *)

Section SampleRuns.
Import Samples.
Local Open Scope Q_scope.

Lemma grad_shape_slope : grad_shape slope.
Proof. intros v. apply length_map. Defined.

Lemma tensor_ok_fresh : tensor_ok fresh 0.
Proof.
  exists (Tensor init None). split; [reflexivity|].
  intros g Hg. discriminate Hg.
Defined.

Lemma printable_fresh verbose : printable verbose fresh 0.
Proof.
  intros _. exists (Tensor init None). split; [reflexivity|].
  apply le_n.
Defined.


(** The rows of that run: the start and the two points after it; the
    fourth point, where the run ends, is not returned. *)
Example minimize_slope_rows :
  minimize slope (GradientDescent [0%nat] default_lr) 3 false fresh
  = Ok [[4 # 5; 4 # 5]; [35 # 50; 35 # 50]; [300 # 500; 300 # 500]].
Proof. reflexivity. Qed.

Example minimize_slope_final :
  (r ← minimize_run slope (GradientDescent [0%nat] default_lr) 3 true fresh;
   Ok (final r !! 0%nat, printed r, broke r))
  = Ok (Some (Tensor [2500 # 5000; 2500 # 5000] (Some [1; 1])),
        [Iteration 0], false).
Proof. reflexivity. Qed.

(** A run that uses up the default budget: the learning rate is zero. *)
Example minimize_full_budget :
  (r ← minimize_run slope (GradientDescent [0%nat] 0) default_max_iter false
                    fresh;
   Ok (length (tested r), length (stepped r), broke r))
  = Ok (500%nat, 500%nat, false).
Proof. vm_compute. reflexivity. Qed.

(** The verbose mode on an iterate with one element. *)
Example minimize_verbose_short :
  minimize slope (GradientDescent [0%nat] default_lr) 3 true
           [Tensor [4 # 5] None]
  = Raise IndexError.
Proof. reflexivity. Qed.

(** C7 on a sample: the constant objective, with the default budget. *)
Lemma minimize_converged_at_start_sample :
  let opt := GradientDescent [0%nat] default_lr in
  let h2 := [Tensor init (Some [0; 0])] in
  get_iterate opt = Ok 0%nat ∧ zero_grad opt fresh = Ok (opt, fresh)
  ∧ backward flat 0 fresh = Ok h2 ∧ get_grad 0 h2 = Ok [0; 0]
  ∧ ltb (sum_sq [0; 0]) tol = true ∧ printable false h2 0
  ∧ minimize_run flat opt default_max_iter false fresh
    = Ok (Run h2 opt [] [] [sum_sq [0; 0]] [] true)
  ∧ minimize flat opt default_max_iter false fresh = Raise RuntimeError.
Proof.
  cbv zeta. do 5 (split; [reflexivity|]).
  split; [intros Hv; discriminate Hv|].
  apply (minimize_converged_at_start flat (GradientDescent [0%nat] default_lr)
           0 499 false fresh (GradientDescent [0%nat] default_lr) fresh
           [Tensor init (Some [0; 0])] [0; 0]); try reflexivity.
  intros Hv; discriminate Hv.
Defined.

(** C6 on a sample. *)
Lemma MomentumGradientDescent_never_moves_sample :
  let opt := MomentumGradientDescent [0%nat] default_lr default_momentum
                                     [1%nat] in
  let h := fresh ++ [Tensor [0; 0] None] in
  grad_shape slope ∧ h !! 0%nat = Some (Tensor init None)
  ∧ shaped (Tensor init None)
  ∧ ∃ r o', minimize_run slope opt 3 false h = Ok r ∧
            final r !! 0%nat = Some o' ∧ data o' = init ∧
            Forall (λ v, v = init) (stepped r) ∧
            (∀ l, l ∈ [1%nat] → l ≠ 0%nat → (l < length h)%nat →
                  final r !! l = h !! l) ∧
            (∀ rows, minimize slope opt 3 false h = Ok rows →
                     Forall (λ v, v = init) rows).
Proof.
  cbv zeta. split; [exact grad_shape_slope|]. split; [reflexivity|].
  split; [intros g Hg; discriminate Hg|].
  apply (proj2 (MomentumGradientDescent_never_moves slope [0%nat] default_lr
                  default_momentum [1%nat]) 0%nat 3%nat false
               (fresh ++ [Tensor [0; 0] None]) (Tensor init None)).
  - exact grad_shape_slope.
  - reflexivity.
  - reflexivity.
  - intros g Hg; discriminate Hg.
  - intros Hv; discriminate Hv.
Defined.

Example minimize_momentum_rows :
  minimize slope
           (MomentumGradientDescent [0%nat] default_lr default_momentum
                                    [1%nat])
           3 false (fresh ++ [Tensor [0; 0] None])
  = Ok [init; init; init].
Proof. reflexivity. Qed.

Lemma with_gradients_trained : with_gradients [0%nat; 1%nat] trained.
Proof.
  repeat constructor.
  - exists (Tensor [1; 2] (Some [3; 4])), [3; 4]. repeat split.
  - exists (Tensor [5] (Some [1 # 2])), [1 # 2]. repeat split.
Defined.

Lemma NoDup_two : NoDup [0%nat; 1%nat].
Proof.
  apply NoDup_cons. split.
  - intros Hin. apply list_elem_of_singleton in Hin. discriminate Hin.
  - apply NoDup_singleton.
Defined.

(** C2, as amended, on a sample: two parameters with gradients. *)
Lemma GradientDescent_step_rule_sample :
  let params := [0%nat; 1%nat] in
  NoDup params ∧ with_gradients params trained ∧
  ∃ h', step (GradientDescent params default_lr) trained
        = Ok (GradientDescent params default_lr, h') ∧
        length h' = length trained ∧
        (∀ p o, p ∈ params → trained !! p = Some o →
           ∃ o' g, grad o = Some g ∧ h' !! p = Some o' ∧ grad o' = Some g ∧
                   length (data o') = length (data o) ∧
                   ∀ i xi gi, data o !! i = Some xi → g !! i = Some gi →
                              data o' !! i = Some (gd_rule default_lr xi gi)) ∧
        (∀ l, l ∉ params → h' !! l = trained !! l).
Proof.
  cbv zeta. split; [exact NoDup_two|]. split; [exact with_gradients_trained|].
  apply (GradientDescent_step_rule [0%nat; 1%nat] default_lr trained).
  - exact NoDup_two.
  - exact with_gradients_trained.
Defined.

(** C2 as it is stated fails on a parameter that is listed twice: the
    tensor with value [1] and gradient [1] is updated twice by
    [step] with [lr = 1], and ends at [-1], not at [1 − 1·1]. *)
Lemma GradientDescent_step_shared_parameter :
  with_gradients [0%nat; 0%nat] shared ∧
  step (GradientDescent [0%nat; 0%nat] 1) shared
  = Ok (GradientDescent [0%nat; 0%nat] 1, [Tensor [-1 # 1] (Some [1])]) ∧
  [-1 # 1] ≠ zip_with (gd_rule 1) [1] [1].
Proof.
  split; [|split; [reflexivity|discriminate]].
  repeat constructor; exists (Tensor [1] (Some [1])), [1]; repeat split.
Qed.

(** The same method on a parameter that has no gradient yet. *)
Example GradientDescent_step_without_gradient :
  step (GradientDescent [0%nat] default_lr) fresh = Raise TypeError.
Proof. reflexivity. Qed.

Lemma allocated_trained : allocated [0%nat; 2%nat; 0%nat] trained.
Proof. repeat constructor; eexists; reflexivity. Defined.

(** C9 on a sample: a parameter listed twice and one without gradient. *)
Lemma GradientDescent_zero_grad_effect_sample :
  let params := [0%nat; 2%nat; 0%nat] in
  allocated params trained ∧
  ∃ h', zero_grad (GradientDescent params default_lr) trained
        = Ok (GradientDescent params default_lr, h') ∧
        length h' = length trained ∧
        ∀ l o, trained !! l = Some o →
          ∃ o', h' !! l = Some o' ∧ data o' = data o ∧
                (l ∈ params →
                   (∀ g, grad o = Some g →
                         grad o' = Some (replicate (length g) zero)) ∧
                   (grad o = None → grad o' = None)) ∧
                (l ∉ params → o' = o).
Proof.
  cbv zeta. split; [exact allocated_trained|].
  apply (GradientDescent_zero_grad_effect [0%nat; 2%nat; 0%nat] default_lr
           trained allocated_trained).
Defined.

Example zero_grad_trained :
  zero_grad (GradientDescent [0%nat; 2%nat; 0%nat] default_lr) trained
  = Ok (GradientDescent [0%nat; 2%nat; 0%nat] default_lr,
        [Tensor [1; 2] (Some [0; 0]); Tensor [5] (Some [1 # 2]);
         Tensor [7] None]).
Proof. reflexivity. Qed.

(** C3 fails on the code.  With the iterate at [(0.8, 0.8)], gradient
    [(1, 1)], velocity [(0, 0)], [lr = 0.1] and [μ = 0.9], the update
    [v ← μ·v + ∇x; x ← x − lr·v] gives another value and another
    velocity, and [MomentumGradientDescent.step] leaves both as they
    are. *)
Theorem MomentumGradientDescent_step_unimplemented :
  let opt := MomentumGradientDescent [0%nat] default_lr default_momentum
                                     [1%nat] in
  step opt moving = Ok (opt, moving) ∧
  moving !! 0%nat = Some (Tensor init (Some [1; 1])) ∧
  moving !! 1%nat = Some (Tensor [0; 0] None) ∧
  fst (momentum_rule default_momentum default_lr init [0; 0] [1; 1]) ≠ init ∧
  snd (momentum_rule default_momentum default_lr init [0; 0] [1; 1]) ≠ [0; 0].
Proof.
  cbv zeta. do 3 (split; [reflexivity|]). split; vm_compute; discriminate.
Qed.

End SampleRuns.

(** * The claims on the Gaussian objective *)

Section Assertions.
Context {R : Type}.
Implicit Types (P m : array R).

Lemma Gaussian_init_ok P m :
  gaussian_shapes P m → Gaussian_init P m = Ok (MkGaussian P m).
Proof.
  intros [HP Hm]. unfold Gaussian_init.
  by rewrite !decide_True by done.
Qed.

Lemma Gaussian_init_raises P m :
  ¬ gaussian_shapes P m → Gaussian_init P m = Raise AssertionError.
Proof.
  intros Hno. unfold Gaussian_init.
  destruct (decide (shape P = [2; 2])); [|done].
  destruct (decide (shape m = [2])); [|done]. by destruct Hno.
Qed.

Lemma make_gaussians_ok (pms : list (array R * array R)) :
  Forall (λ pm, gaussian_shapes pm.1 pm.2) pms →
  make_gaussians pms = Ok (map (λ pm, MkGaussian pm.1 pm.2) pms).
Proof.
  induction 1 as [|[P m] pms Hpm _ IH]; [done|].
  cbn in Hpm. cbn. rewrite (Gaussian_init_ok P m Hpm). cbn. by rewrite IH.
Qed.

(** C4, as amended.  The error that the notebook shows is the one of the
    tensor library: [torch.matmul] of a tensor of doubles and a tensor of
    floats raises [RuntimeError], which the cell catches and prints, and
    the product goes through after [A.float()].  But the code of the
    notebook does assert conditions of its own.  [Gaussian.__init__]
    returns when the precision has shape [(2, 2)] and the mean has shape
    [(2,)], and raises [AssertionError] otherwise;
    [GaussianCombination.__init__] raises [AssertionError] when its
    three lists differ in length, and returns when they agree and every
    pair passes the assertions of [Gaussian]; the assertion of
    [minimize] fails exactly when a framework optimizer has not one
    parameter group, and [minimize] then raises [AssertionError].  In
    the notebook's own construction of [f] no assertion fails. *)
Theorem own_assertions `{Scalar R} :
  (matmul_cell A_dtype x_dtype = Ok (Some RuntimeError) ∧
   torch_matmul (to_float A_dtype) x_dtype = Ok float32) ∧
  (∀ P m, (gaussian_shapes P m → Gaussian_init P m = Ok (MkGaussian P m)) ∧
          (¬ gaussian_shapes P m → Gaussian_init P m = Raise AssertionError)) ∧
  (∀ (Ps ms : list (array R)) (ws : list Q),
     (¬ (length Ps = length ms ∧ length ms = length ws) →
      GaussianCombination_init Ps ms ws = Raise AssertionError) ∧
     (length Ps = length ms ∧ length ms = length ws →
      Forall (λ pm, gaussian_shapes pm.1 pm.2) (zip Ps ms) →
      GaussianCombination_init Ps ms ws
      = Ok (MkCombination (map (λ pm, MkGaussian pm.1 pm.2) (zip Ps ms)) ws))) ∧
  (∀ groups (s z : heap R → pyresult (heap R)),
     get_iterate (FrameworkOptimizer groups s z) = Raise AssertionError
     ↔ length groups ≠ 1) ∧
  (∀ groups s z (f : objective R) max_iter verbose h,
     length groups ≠ 1 →
     minimize f (FrameworkOptimizer groups s z) max_iter verbose h
     = Raise AssertionError) ∧
  toy = Ok (MkCombination [MkGaussian p1 m1; MkGaussian p2 m2] [w1; w2]).
Proof.
  split; [done|].
  split; [intros P m; split;
          [apply Gaussian_init_ok|apply Gaussian_init_raises]|].
  split.
  { intros Ps ms ws. unfold GaussianCombination_init. split.
    - intros Hno. by rewrite decide_False by done.
    - intros Hlen Hall. rewrite decide_True by done.
      by rewrite (make_gaussians_ok _ Hall). }
  assert (Hget : ∀ groups (s z : heap R → pyresult (heap R)),
             get_iterate (FrameworkOptimizer groups s z) = Raise AssertionError
             ↔ length groups ≠ 1).
  { intros groups s z. cbn. destruct groups as [|g [|g' gs]]; cbn.
    - split; [intros _; lia|done].
    - split; [|intros Hne; by destruct Hne].
      destruct g as [|x [|? ?]]; cbn; discriminate.
    - split; [intros _; lia|done]. }
  split; [done|].
  split; [|done].
  intros groups s z f max_iter verbose h Hne.
  unfold minimize, minimize_run. by rewrite (proj2 (Hget groups s z) Hne).
Qed.

End Assertions.

(** C4 as it is stated fails: [Gaussian.__init__] raises on a precision
    matrix of shape [(3, 3)]. *)
Lemma Gaussian_init_asserts_shape :
  Gaussian_init (Array [3; 3] (replicate 9 0%Q)) (Array [2] [0%Q; 0%Q])
  = Raise AssertionError.
Proof. reflexivity. Qed.

(** * The objective over the reals *)

Section TwoBumps.
Local Open Scope R_scope.

Lemma Q2R_integer (z : Z) : Q2R (z # 1) = IZR z.
Proof. unfold Q2R. simpl. field. Qed.

Lemma Q2R_zero : Q2R 0 = 0.
Proof. unfold Q2R. simpl. lra. Qed.

Lemma Q2R_one : Q2R 1 = 1.
Proof. unfold Q2R. simpl. lra. Qed.

Lemma Q2R_minus_one : Q2R (-1) = -1.
Proof. unfold Q2R. simpl. lra. Qed.

Lemma Q2R_minus_half : Q2R (-1 # 2) = - (1 / 2).
Proof. unfold Q2R. simpl. lra. Qed.

Lemma Gaussian_forward_row a b c d m0 m1 x0 x1 :
  exp (mul (lit (-1 # 2))
         (tsum (zip_with mul
                  (vecmat (zip_with sub [x0; x1] [m0; m1])
                          (Array [2%nat; 2%nat] [a; b; c; d]))
                  (zip_with sub [x0; x1] [m0; m1]))))
  = bump a b c d m0 m1 x0 x1.
Proof.
  unfold bump, quad_form, exp, R_exponential. cbn.
  rewrite Q2R_minus_half, Q2R_zero. f_equal. unfold entry. cbn. ring.
Qed.

Lemma Gaussian_forward_point a b c d m0 m1 x0 x1 :
  Gaussian_forward (MkGaussian (Array [2%nat; 2%nat] [a; b; c; d])
                               (Array [2%nat] [m0; m1]))
                   (Point [x0; x1])
  = Some [bump a b c d m0 m1 x0 x1].
Proof.
  unfold Gaussian_forward, centered.
  cbn [length decide mean precision elems mbind option_bind map].
  rewrite decide_True by done. cbn [mbind option_bind map].
  by rewrite Gaussian_forward_row.
Qed.

Lemma Gaussian_forward_batch a b c d m0 m1 (pts : list (R * R)) :
  Gaussian_forward (MkGaussian (Array [2%nat; 2%nat] [a; b; c; d])
                               (Array [2%nat] [m0; m1]))
                   (Batch (map (λ p, [p.1; p.2]) pts))
  = Some (map (λ p, bump a b c d m0 m1 p.1 p.2) pts).
Proof.
  unfold Gaussian_forward, centered.
  replace (forallb _ _) with true.
  - cbn [mbind option_bind mean precision elems]. f_equal.
    rewrite !map_map. apply map_ext. intros [x0 x1].
    apply Gaussian_forward_row.
  - symmetry. apply forallb_forall. intros v Hv.
    apply in_map_iff in Hv as ([x0 x1] & <- & _). done.
Qed.

Lemma weighted_sum_two (t1 t2 : list R) :
  length t1 = length t2 →
  foldl add_tensor (PyNum 0)
        [map (mul (lit w1)) t1; map (mul (lit w2)) t2]
  = PyTensor (zip_with Rminus t1 t2).
Proof.
  intros Hlen. cbn. f_equal. unfold w1, w2.
  rewrite Q2R_zero, Q2R_one, Q2R_minus_one.
  revert t2 Hlen. induction t1 as [|e1 t1 IH]; intros [|e2 t2] Hlen;
    try done.
  cbn. rewrite IH by (by injection Hlen). f_equal. ring.
Qed.

Lemma two_bumps_point a1 b1 c1 d1 m10 m11 a2 b2 c2 d2 m20 m21 x0 x1 :
  GaussianCombination_forward
    (MkCombination
       [MkGaussian (Array [2%nat; 2%nat] [a1; b1; c1; d1])
                   (Array [2%nat] [m10; m11]);
        MkGaussian (Array [2%nat; 2%nat] [a2; b2; c2; d2])
                   (Array [2%nat] [m20; m21])]
       [w1; w2])
    (Point [x0; x1])
  = Some (PyTensor [bump a1 b1 c1 d1 m10 m11 x0 x1
                    - bump a2 b2 c2 d2 m20 m21 x0 x1]).
Proof.
  unfold GaussianCombination_forward.
  cbn [gaussians weights zip zip_with weighted].
  rewrite !Gaussian_forward_point.
  cbn [mbind option_bind]. by rewrite weighted_sum_two.
Qed.

Lemma two_bumps_batch a1 b1 c1 d1 m10 m11 a2 b2 c2 d2 m20 m21
    (pts : list (R * R)) :
  GaussianCombination_forward
    (MkCombination
       [MkGaussian (Array [2%nat; 2%nat] [a1; b1; c1; d1])
                   (Array [2%nat] [m10; m11]);
        MkGaussian (Array [2%nat; 2%nat] [a2; b2; c2; d2])
                   (Array [2%nat] [m20; m21])]
       [w1; w2])
    (Batch (map (λ p, [p.1; p.2]) pts))
  = Some (PyTensor (map (λ p, bump a1 b1 c1 d1 m10 m11 p.1 p.2
                              - bump a2 b2 c2 d2 m20 m21 p.1 p.2) pts)).
Proof.
  unfold GaussianCombination_forward.
  cbn [gaussians weights zip zip_with weighted].
  rewrite !Gaussian_forward_batch.
  cbn [mbind option_bind].
  rewrite weighted_sum_two by (by rewrite !length_map).
  do 2 f_equal. induction pts as [|p pts IH]; [done|].
  cbn. by rewrite IH.
Qed.

(** C5.  For every two precision matrices and means, the combination
    with the weights [1] and [−1] is constructed, and at every 2D point
    [x] it returns the one-element tensor
    [exp(−½(x−m1)ᵀP1(x−m1)) − exp(−½(x−m2)ᵀP2(x−m2))]; on a batch of 2D
    points it returns that number for every point in turn. *)
Theorem GaussianCombination_two_bumps
    (a1 b1 c1 d1 m10 m11 a2 b2 c2 d2 m20 m21 : R) :
  let P1 := Array [2%nat; 2%nat] [a1; b1; c1; d1] in
  let M1 := Array [2%nat] [m10; m11] in
  let P2 := Array [2%nat; 2%nat] [a2; b2; c2; d2] in
  let M2 := Array [2%nat] [m20; m21] in
  let value x0 x1 := bump a1 b1 c1 d1 m10 m11 x0 x1
                     - bump a2 b2 c2 d2 m20 m21 x0 x1 in
  ∃ f, GaussianCombination_init [P1; P2] [M1; M2] [w1; w2] = Ok f ∧
       (∀ x0 x1, GaussianCombination_forward f (Point [x0; x1])
                 = Some (PyTensor [value x0 x1])) ∧
       (∀ pts : list (R * R),
          GaussianCombination_forward f (Batch (map (λ p, [p.1; p.2]) pts))
          = Some (PyTensor (map (λ p, value p.1 p.2) pts))).
Proof.
  intros P1 M1 P2 M2 value.
  exists (MkCombination [MkGaussian P1 M1; MkGaussian P2 M2] [w1; w2]).
  split; [done|]. split.
  - intros x0 x1. apply two_bumps_point.
  - intros pts. apply two_bumps_batch.
Qed.

(** The objective [f] of the notebook, with its own matrices and means. *)
Example toy_value (x0 x1 : R) :
  ∃ f, toy = Ok f ∧
       GaussianCombination_forward f (Point [x0; x1])
       = Some (PyTensor [bump 1 0 0 4 0 1 x0 x1
                         - bump 1 (-2) (-2) 10 0 (-2) x0 x1]).
Proof.
  eexists. split; [reflexivity|]. unfold p1, m1, p2, m2.
  rewrite two_bumps_point. cbn [lit R_scalar]. by rewrite !Q2R_integer.
Qed.

End TwoBumps.

(** * Further properties of the optimizers *)

Section MoreMethods.
Context {R : Type} `{Scalar R}.
Implicit Types (h : heap R) (o : tobj R) (x p q : loc) (params : list loc).

Lemma lookup_insert_same_grad h p o o' q :
  h !! p = Some o → grad o' = grad o → shaped o' →
  ((∃ oq, h !! q = Some oq ∧ shaped oq) →
   ∃ oq, <[p := o']> h !! q = Some oq ∧ shaped oq) ∧
  (has_gradient h q ↔ has_gradient (<[p := o']> h) q) ∧
  (lacks_gradient h q ↔ lacks_gradient (<[p := o']> h) q).
Proof.
  intros Hp Hg Ho'. unfold has_gradient, lacks_gradient.
  assert (Hlt : p < length h) by (by eapply lookup_lt_Some).
  destruct (decide (q = p)) as [->|Hne].
  - rewrite list_lookup_insert_eq by done. rewrite Hp.
    split; [intros _; by exists o'|]. split; split.
    + intros (oq & [= <-] & Hq). exists o'. split; [done|congruence].
    + intros (oq & [= <-] & Hq). exists o. split; [done|congruence].
    + intros (oq & [= <-] & Hq). exists o'. split; [done|congruence].
    + intros (oq & [= <-] & Hq). exists o. split; [done|congruence].
  - rewrite list_lookup_insert_ne by done. done.
Qed.

Lemma gd_step_result lr params h :
  all_shaped params h →
  (Forall (has_gradient h) params → ∃ h', gd_step lr params h = Ok h') ∧
  (Exists (lacks_gradient h) params → gd_step lr params h = Raise TypeError).
Proof.
  revert h. induction params as [|p ps IH]; intros h Hall.
  - split; [by exists h|]. intros Hex. inversion Hex.
  - inversion Hall as [|? ? (o & Hp & Ho) Hps]; subst.
    cbn. rewrite (deref_Some _ _ _ Hp). cbn.
    destruct (grad o) as [g|] eqn:Hg.
    + destruct (gd_update_shaped lr o g Hg (Ho g Hg))
        as (o' & Hup & Ho' & Hg' & _).
      rewrite Hup. cbn.
      assert (Hsame : grad o' = grad o) by congruence.
      destruct (IH (<[p := o']> h)) as [IHok IHraise].
      { eapply Forall_impl; [exact Hps|]. intros q Hq.
        by apply (lookup_insert_same_grad h p o o' q Hp Hsame Ho'). }
      split.
      * intros Hhas. inversion Hhas as [|? ? _ Hhas']; subst.
        apply IHok. eapply Forall_impl; [exact Hhas'|]. intros q Hq.
        by apply (lookup_insert_same_grad h p o o' q Hp Hsame Ho').
      * intros Hex. apply IHraise.
        inversion Hex as [? ? (o2 & Hp2 & Hn)|? ? Hex']; subst.
        -- congruence.
        -- eapply Exists_impl; [exact Hex'|]. intros q Hq.
           by apply (lookup_insert_same_grad h p o o' q Hp Hsame Ho').
    + unfold gd_update. rewrite Hg. cbn. split; [|done].
      intros Hhas. inversion Hhas as [|? ? (o2 & Hp2 & Hn) _]; subst.
      congruence.
Qed.

(** [GradientDescent.step] on parameters of the store, listed any number
    of times: it returns when every one of them has a gradient, and
    raises [TypeError] when one of them has none. *)
Theorem GradientDescent_step_needs_gradients params (lr : R) h :
  all_shaped params h →
  (Forall (has_gradient h) params →
   ∃ h', step (GradientDescent params lr) h
         = Ok (GradientDescent params lr, h')) ∧
  (Exists (lacks_gradient h) params →
   step (GradientDescent params lr) h = Raise TypeError).
Proof.
  intros Hall. destruct (gd_step_result lr params h Hall) as [Hok Hraise].
  split.
  - intros Hhas. destruct (Hok Hhas) as (h' & Hrun).
    exists h'. cbn. by rewrite Hrun.
  - intros Hex. cbn. by rewrite (Hraise Hex).
Qed.

Lemma zero_loop_idempotent params h h1 :
  allocated params h → zero_loop params h = Ok h1 →
  zero_loop params h1 = Ok h1.
Proof.
  intros Hall Hrun.
  destruct (zero_loop_lookup params h Hall) as (h1' & Hrun' & Hlen & Hlook).
  rewrite Hrun in Hrun'. injection Hrun' as <-.
  assert (Hall1 : allocated params h1).
  { eapply Forall_impl; [exact Hall|]. intros p' [o Hp].
    apply lookup_lt_is_Some. rewrite Hlen. by eapply lookup_lt_Some. }
  destruct (zero_loop_lookup params h1 Hall1) as (h2 & Hrun2 & Hlen2 & Hlook2).
  rewrite Hrun2. f_equal. apply list_eq. intros l.
  rewrite Hlook2, Hlook. destruct (h !! l) as [o|]; cbn; [|done].
  destruct (decide (l ∈ params)); [by rewrite zero_one_idemp|done].
Qed.

(** [zero_grad] a second time changes nothing, for both classes of the
    notebook. *)
Theorem zero_grad_idempotent params (lr mu : R) vs h :
  allocated params h →
  (∀ h1, zero_grad (GradientDescent params lr) h
         = Ok (GradientDescent params lr, h1) →
         zero_grad (GradientDescent params lr) h1
         = Ok (GradientDescent params lr, h1)) ∧
  (∀ h1, zero_grad (MomentumGradientDescent params lr mu vs) h
         = Ok (MomentumGradientDescent params lr mu vs, h1) →
         zero_grad (MomentumGradientDescent params lr mu vs) h1
         = Ok (MomentumGradientDescent params lr mu vs, h1)).
Proof.
  intros Hall. split; intros h1; cbn;
    destruct (zero_loop params h) as [h1'|] eqn:Hrun; cbn; try discriminate;
    intros [= <-]; by rewrite (zero_loop_idempotent _ _ _ Hall Hrun).
Qed.

Lemma zeros_like_replicate (t : list R) :
  zeros_like t = replicate (length t) zero.
Proof. unfold zeros_like. induction t as [|a t IH]; [done|]. cbn. by rewrite IH. Qed.

Lemma alloc_velocities_spec params h :
  allocated params h →
  ∃ vels, alloc_velocities params h
          = Ok (seq (length h) (length params), h ++ vels) ∧
          Forall2 (λ p v, ∃ o, h !! p = Some o ∧
                     v = Tensor (replicate (length (data o)) zero) None)
                  params vels.
Proof.
  revert h. induction params as [|p ps IH]; intros h Hall.
  - exists []. rewrite app_nil_r. by split.
  - inversion Hall as [|? ? [o Hp] Hps]; subst.
    set (v := Tensor (zeros_like (data o)) None).
    destruct (IH (h ++ [v])) as (vels & Hrun & Hvels).
    { eapply Forall_impl; [exact Hps|]. intros q [oq Hq]. exists oq.
      rewrite lookup_app_l; [done|]. by eapply lookup_lt_Some. }
    exists (v :: vels). cbn. rewrite (deref_Some _ _ _ Hp). cbn.
    fold v. rewrite Hrun. cbn.
    rewrite length_app, <- app_assoc. cbn.
    replace (length h + 1) with (S (length h)) by lia.
    split; [done|]. constructor.
    + exists o. split; [done|]. unfold v. by rewrite zeros_like_replicate.
    + clear Hrun. revert Hps. clear -Hvels.
      intros Hps. induction Hvels as [|q w qs ws (oq & Hq & ->) _ IHv];
        constructor.
      * inversion Hps as [|? ? [oq' Hq'] _]; subst.
        exists oq'. rewrite lookup_app_l in Hq by (by eapply lookup_lt_Some).
        split; [done|congruence].
      * apply IHv. by inversion Hps.
Qed.

(** [MomentumGradientDescent.__init__] on parameters of the store
    returns an optimizer with the given parameters and coefficients; the
    velocities are new tensors at the end of the store, one for each
    entry of the parameter list in order, made of zeros, of the shape of
    their parameter and without gradient; the tensors that were there
    are untouched. *)
Theorem MomentumGradientDescent_init_velocities params (lr mu : R) h :
  allocated params h →
  ∃ vels, MomentumGradientDescent_init params lr mu h
          = Ok (MomentumGradientDescent params lr mu
                  (seq (length h) (length params)), h ++ vels) ∧
          Forall2 (λ p v, ∃ o, h !! p = Some o ∧
                     v = Tensor (replicate (length (data o)) zero) None)
                  params vels.
Proof.
  intros Hall. destruct (alloc_velocities_spec params h Hall)
    as (vels & Hrun & Hvels).
  exists vels. unfold MomentumGradientDescent_init. rewrite Hrun. by split.
Qed.

End MoreMethods.

(** * Further properties of [minimize] *)

Section MoreDriver.
Context {R : Type} `{Scalar R}.
Implicit Types (h : heap R) (o : tobj R) (x : loc) (opt : optimizer R)
               (f : objective R) (r : run R).

Lemma read_rows_length (cs : list loc) h rows :
  read_rows cs h = Ok rows → length rows = length cs.
Proof.
  revert rows. induction cs as [|c cs IH]; intros rows; cbn.
  - by intros [= <-].
  - destruct (deref c h) as [o|]; cbn; [|discriminate].
    destruct (read_rows cs h) as [rows'|]; cbn; [|discriminate].
    intros [= <-]. cbn. by rewrite (IH rows').
Qed.

Lemma loop_record_bound f x verbose n :
  ∀ i r r', minimize_loop f x verbose i n r = Ok r' →
            length (iterate_record r') ≤ length (iterate_record r) + n.
Proof.
  induction n as [|n IH]; intros i r r' Hrun.
  - cbn in Hrun. injection Hrun as <-. lia.
  - cbn -[print Nat.modulo] in Hrun.
    destruct (zero_grad (optim r) (final r)) as [[opt1 h1]|];
      cbn -[print Nat.modulo] in Hrun; [|discriminate].
    destruct (backward f x h1) as [h2|];
      cbn -[print Nat.modulo] in Hrun; [|discriminate].
    destruct (get_grad x h2) as [g|];
      cbn -[print Nat.modulo] in Hrun; [|discriminate].
    destruct (ltb (sum_sq g) tol).
    + destruct (print verbose x h2 (Converged i) (printed r)) as [out|];
        cbn in Hrun; [|discriminate].
      injection Hrun as <-. cbn. lia.
    + destruct (clone_data x h2) as [[c h3]|];
        cbn -[print Nat.modulo] in Hrun; [|discriminate].
      destruct (print _ x h3 (Iteration i) (printed r)) as [out|];
        cbn -[print Nat.modulo] in Hrun; [|discriminate].
      destruct (deref x h3) as [o|];
        cbn -[print Nat.modulo] in Hrun; [|discriminate].
      destruct (step opt1 h3) as [[opt2 h4]|];
        cbn -[print Nat.modulo] in Hrun; [|discriminate].
      apply IH in Hrun. cbn in Hrun. rewrite length_app in Hrun.
      cbn in Hrun. lia.
Qed.

(** Whatever the objective, the optimizer and the store: a tensor that
    [minimize] returns has at least one row and at most [max_iter] rows.
    With a budget of zero iterations [minimize] raises, as [torch.cat]
    has nothing to join. *)
Theorem minimize_row_count f opt max_iter verbose h :
  (∀ rows, minimize f opt max_iter verbose h = Ok rows →
           1 ≤ length rows ≤ max_iter) ∧
  (max_iter = 0 → ∀ x, get_iterate opt = Ok x →
   minimize f opt max_iter verbose h = Raise RuntimeError).
Proof.
  split.
  - intros rows. unfold minimize, minimize_run.
    destruct (get_iterate opt) as [x|]; cbn; [|discriminate].
    destruct (minimize_loop f x verbose 0 max_iter (start opt h))
      as [r|] eqn:Hrun; cbn; [|discriminate].
    apply loop_record_bound in Hrun. cbn in Hrun.
    unfold torch_cat. destruct (iterate_record r) as [|c cs] eqn:E;
      [discriminate|].
    intros Hrows. apply read_rows_length in Hrows. rewrite Hrows.
    cbn in *. lia.
  - intros -> x Hx. unfold minimize, minimize_run. by rewrite Hx.
Qed.

Lemma zip_add_zeros (g0 g : list R) :
  add_zero_law → length g0 = length g → zip_with add (zeros_like g0) g = g.
Proof.
  intros Hlaw. revert g. induction g0 as [|a g0 IH]; intros [|b g] Hlen;
    try done.
  cbn. rewrite Hlaw, IH; [done|]. by injection Hlen.
Qed.

Lemma zero_grad_own opt h x o :
  own opt → get_iterate opt = Ok x → h !! x = Some o →
  zero_grad opt h = Ok (opt, <[x := zero_one o]> h).
Proof.
  intros Hown Hit Hx.
  destruct opt as [ps lr|ps lr mu vs|gs s z]; [| |done]; cbn in Hit;
    destruct ps as [|x' [|? ?]]; try discriminate; injection Hit as ->;
    cbn [zero_grad]; by rewrite (zero_loop_single _ _ _ Hx).
Qed.

Lemma backward_zeroed f h x o :
  add_zero_law → grad_shape f → h !! x = Some o → shaped o →
  backward f x (<[x := zero_one o]> h)
  = Ok (<[x := Tensor (data o) (Some (gradient f (data o)))]> h).
Proof.
  intros Hlaw Hf Hx Ho.
  assert (Hlt : x < length h) by (by eapply lookup_lt_Some).
  unfold backward.
  rewrite (deref_Some _ _ (zero_one o)) by (by apply list_lookup_insert_eq).
  cbn. rewrite !data_zero_one.
  assert (accumulate (gradient f (data o)) (grad (zero_one o))
          = Ok (gradient f (data o))) as ->.
  { unfold zero_one, accumulate. destruct (grad o) as [g0|] eqn:Hg; cbn.
    - assert (Hlen : length g0 = length (gradient f (data o))).
      { rewrite Hf. by apply Ho. }
      rewrite decide_True by (unfold zeros_like; by rewrite length_map).
      by rewrite zip_add_zeros.
    - by rewrite Hg. }
  cbn. by rewrite list_insert_insert_eq.
Qed.

Lemma length_advance opt (v g : list R) :
  length g = length v → length (advance opt v g) = length v.
Proof.
  intros Hlen. destruct opt; cbn; [|done..].
  rewrite length_zip_with. lia.
Qed.

Lemma step_own opt h x (d g : list R) :
  own opt → get_iterate opt = Ok x →
  h !! x = Some (Tensor d (Some g)) → length g = length d →
  step opt h = Ok (opt, <[x := Tensor (advance opt d g) (Some g)]> h).
Proof.
  intros Hown Hit Hx Hlen.
  destruct opt as [ps lr|ps lr mu vs|gs s z]; [| |done]; cbn in Hit;
    destruct ps as [|x' [|? ?]]; try discriminate; injection Hit as ->.
  - cbn. rewrite (deref_Some _ _ _ Hx). cbn. unfold gd_update. cbn.
    by rewrite decide_True by done.
  - cbn. by rewrite list_insert_id.
Qed.

Lemma reports_cons i k b :
  reports i (S k) b
  = (if i mod 10 =? 0 then [Iteration i] else []) ++ reports (S i) k b.
Proof.
  unfold reports. cbn -[Nat.modulo].
  replace (i + S k) with (S (i + k)) by lia.
  destruct (i mod 10 =? 0); done.
Qed.

Lemma own_loop_trace f opt x verbose n :
  add_zero_law → grad_shape f → own opt → get_iterate opt = Ok x →
  ∀ i h o cs out tst stp,
    h !! x = Some o → shaped o → (verbose = true → 2 ≤ length (data o)) →
    ∃ r', minimize_loop f x verbose i n (Run h opt cs out tst stp false)
          = Ok r' ∧
      optim r' = opt ∧
      iterate_record r'
      = cs ++ seq (length h) (length (descent f opt n (data o)).1) ∧
      printed r'
      = out ++ (if verbose
                then reports i (length (descent f opt n (data o)).1)
                             (descent f opt n (data o)).2.2
                else []) ∧
      stepped r' = stp ++ (descent f opt n (data o)).1 ∧
      broke r' = (descent f opt n (data o)).2.2 ∧
      length (final r') = length h + length (descent f opt n (data o)).1 ∧
      ∃ o', final r' !! x = Some o' ∧ shaped o' ∧
            data o' = (descent f opt n (data o)).2.1 ∧
            final r' = <[x := o']> h
                       ++ map (λ v, Tensor v None)
                              (descent f opt n (data o)).1.
Proof.
  intros Hlaw Hf Hown Hit.
  induction n as [|n IH]; intros i h o cs out tst stp Hx Ho Hp.
  - eexists. split; [done|]. cbn. rewrite !app_nil_r, Nat.add_0_r.
    split; [done|]. split; [done|].
    split; [destruct verbose; by rewrite ?app_nil_r|].
    split; [done|]. split; [done|]. split; [done|]. exists o.
    rewrite list_insert_id by done. cbn. by rewrite ?app_nil_r.
  - assert (Hlt : x < length h) by (by eapply lookup_lt_Some).
    set (g := gradient f (data o)).
    set (o2 := Tensor (data o) (Some g)).
    set (h2 := <[x := o2]> h).
    assert (Hg : length g = length (data o)) by apply Hf.
    assert (Hx2 : h2 !! x = Some o2) by (by apply list_lookup_insert_eq).
    assert (Hl2 : length h2 = length h) by apply length_insert.
    cbn [minimize_loop final optim iterate_record tested stepped printed].
    rewrite (zero_grad_own opt h x o Hown Hit Hx). cbn -[print Nat.modulo].
    rewrite (backward_zeroed f h x o Hlaw Hf Hx Ho). cbn -[print Nat.modulo].
    fold g o2 h2. unfold get_grad. rewrite (deref_Some _ _ _ Hx2).
    cbn -[print Nat.modulo descent].
    cbn [descent]. fold g.
    destruct (ltb (sum_sq g) tol) eqn:Hv.
    + assert (print verbose x h2 (Converged i) out
              = Ok (if verbose then out ++ [Converged i] else out)) as ->.
      { unfold print, report. destruct verbose; [|done].
        rewrite (deref_Some _ _ _ Hx2). cbn.
        by rewrite decide_True by (by apply Hp). }
      eexists. split; [done|]. cbn. rewrite !app_nil_r, !Nat.add_0_r.
      split; [done|]. split; [done|].
      split; [destruct verbose; by rewrite ?app_nil_r|].
      split; [done|]. split; [done|]. split; [done|].
      exists o2. split; [done|]. split; [by intros g' [= <-]|].
      split; [done|]. cbn. by rewrite app_nil_r.
    + set (h3 := h2 ++ [Tensor (data o) None]).
      assert (Hx3 : h3 !! x = Some o2).
      { unfold h3. rewrite lookup_app_l; [done|]. by rewrite Hl2. }
      unfold clone_data. rewrite (deref_Some _ _ _ Hx2).
      cbn -[print Nat.modulo descent]. fold h3.
      assert (print (verbose && (i mod 10 =? 0)) x h3 (Iteration i) out
              = Ok (if verbose && (i mod 10 =? 0)
                    then out ++ [Iteration i] else out)) as ->.
      { unfold print, report.
        destruct (verbose && (i mod 10 =? 0)) eqn:Hvb; [|done].
        apply andb_true_iff in Hvb as [Hvb _].
        rewrite (deref_Some _ _ _ Hx3). cbn.
        by rewrite decide_True by (by apply Hp). }
      cbn -[Nat.modulo descent]. rewrite (deref_Some _ _ _ Hx3).
      cbn -[Nat.modulo descent].
      rewrite (step_own opt h3 x (data o) g Hown Hit Hx3 Hg).
      cbn -[Nat.modulo descent].
      set (o4 := Tensor (advance opt (data o) g) (Some g)).
      set (h4 := <[x := o4]> h3).
      assert (Hl4 : length h4 = S (length h)).
      { unfold h4, h3. rewrite length_insert, length_app, Hl2. cbn. lia. }
      assert (Hx4 : h4 !! x = Some o4).
      { apply list_lookup_insert_eq. unfold h3. rewrite length_app. lia. }
      assert (Ho4 : shaped o4).
      { intros g' [= <-]. cbn. by rewrite length_advance. }
      assert (Hp4 : verbose = true → 2 ≤ length (data o4)).
      { intros Hvb. cbn. rewrite length_advance by done. by apply Hp. }
      destruct (IH (S i) h4 o4 (cs ++ [length h2])
                   (if verbose && (i mod 10 =? 0)
                    then out ++ [Iteration i] else out)
                   (tst ++ [sum_sq g]) (stp ++ [data o]) Hx4 Ho4 Hp4)
        as (r' & Hrun & Hopt & Hrec & Hout & Hstp & Hbr & Hlen & Hfin).
      exists r'. split; [exact Hrun|]. cbn [data o4] in *.
      destruct (descent f opt n (advance opt (data o) g))
        as [rows [v' b]] eqn:Hd.
      cbn [fst snd length] in *.
      split; [done|].
      split; [rewrite Hrec, Hl4, Hl2, <- app_assoc; done|].
      split.
      { rewrite Hout. destruct verbose; cbn [andb]; [|done].
        rewrite reports_cons. destruct (i mod 10 =? 0);
          by rewrite <- ?app_assoc. }
      split; [by rewrite Hstp, <- app_assoc|].
      split; [done|]. split; [lia|].
      destruct Hfin as (o' & Hx' & Ho' & Hd' & Hstore).
      exists o'. split; [done|]. split; [done|]. split; [done|].
      rewrite Hstore. unfold h4, h3, h2.
      rewrite !insert_app_l by (rewrite ?length_insert; lia).
      rewrite !list_insert_insert_eq. by rewrite <- app_assoc.
Qed.

Lemma own_well_behaved opt x : own opt → well_behaved opt x.
Proof. by destruct opt. Qed.

Lemma own_run f opt x max_iter verbose h o :
  add_zero_law → grad_shape f → own opt → get_iterate opt = Ok x →
  h !! x = Some o → shaped o → (verbose = true → 2 ≤ length (data o)) →
  ∃ r o',
    minimize_run f opt max_iter verbose h = Ok r ∧
    iterate_record r
    = seq (length h) (length (descent f opt max_iter (data o)).1) ∧
    printed r
    = (if verbose
       then reports 0 (length (descent f opt max_iter (data o)).1)
                    (descent f opt max_iter (data o)).2.2
       else []) ∧
    stepped r = (descent f opt max_iter (data o)).1 ∧
    broke r = (descent f opt max_iter (data o)).2.2 ∧
    final r = <[x := o']> h
              ++ map (λ v, Tensor v None)
                     (descent f opt max_iter (data o)).1 ∧
    data o' = (descent f opt max_iter (data o)).2.1 ∧ shaped o' ∧
    recorded x (iterate_record r) (stepped r) (final r).
Proof.
  intros Hlaw Hf Hown Hit Hx Ho Hp.
  destruct (own_loop_trace f opt x verbose max_iter Hlaw Hf Hown Hit
              0 h o [] [] [] [] Hx Ho Hp)
    as (r & Hrun & _ & Hrec & Hout & Hstp & Hbr & _
        & o' & Hx' & Ho' & Hd' & Hstore).
  destruct (minimize_run_spec f opt x max_iter verbose h Hf Hit
              (own_well_behaved opt x Hown))
    as (r2 & Hrun2 & _ & _ & Hrecorded & _);
    [by exists o|intros Hv; exists o; split; [done|by apply Hp]|].
  assert (minimize_run f opt max_iter verbose h = Ok r) as Hrun'.
  { unfold minimize_run. rewrite Hit. exact Hrun. }
  rewrite Hrun' in Hrun2. injection Hrun2 as <-.
  exists r, o'. cbn in Hrec, Hout, Hstp. by repeat (split; [done|]).
Qed.

Lemma minimize_descent_value f opt x max_iter verbose h o :
  add_zero_law → grad_shape f → own opt → get_iterate opt = Ok x →
  h !! x = Some o → shaped o → (verbose = true → 2 ≤ length (data o)) →
  minimize f opt max_iter verbose h
  = match (descent f opt max_iter (data o)).1 with
    | [] => Raise RuntimeError
    | rows => Ok rows
    end.
Proof.
  intros Hlaw Hf Hown Hit Hx Ho Hp.
  destruct (own_run f opt x max_iter verbose h o Hlaw Hf Hown Hit Hx Ho Hp)
    as (r & o' & Hrun & Hrec & _ & Hstp & _ & _ & _ & _ & Hrecorded).
  unfold minimize. rewrite Hrun. cbn.
  rewrite Hstp in Hrecorded. rewrite Hrec in *.
  destruct (descent f opt max_iter (data o)).1 as [|v rows] eqn:E; [done|].
  eapply torch_cat_recorded; [exact Hrecorded|]. cbn. lia.
Qed.

(** [minimize] with an optimizer of the notebook is the descent on
    values: it returns the points at which the steps were made, and
    raises when there is none. *)
Theorem minimize_is_descent f opt x max_iter verbose h o :
  add_zero_law → grad_shape f → own opt → get_iterate opt = Ok x →
  h !! x = Some o → shaped o → (verbose = true → 2 ≤ length (data o)) →
  minimize f opt max_iter verbose h
  = match (descent f opt max_iter (data o)).1 with
    | [] => Raise RuntimeError
    | rows => Ok rows
    end.
Proof. apply minimize_descent_value. Qed.

(** What a run of [minimize] with an optimizer of the notebook leaves
    in the store: the iterate at the point the descent reached, every
    other tensor as it was, and after them one new tensor without
    gradient for each row, in order; [iterate_record] holds the
    addresses of these; the loop was left by [break] exactly when the
    descent met the threshold. *)
Theorem minimize_final_store f opt x max_iter verbose h o :
  add_zero_law → grad_shape f → own opt → get_iterate opt = Ok x →
  h !! x = Some o → shaped o → (verbose = true → 2 ≤ length (data o)) →
  ∃ r o',
    minimize_run f opt max_iter verbose h = Ok r ∧
    final r = <[x := o']> h
              ++ map (λ v, Tensor v None)
                     (descent f opt max_iter (data o)).1 ∧
    data o' = (descent f opt max_iter (data o)).2.1 ∧
    iterate_record r
    = seq (length h) (length (descent f opt max_iter (data o)).1) ∧
    broke r = (descent f opt max_iter (data o)).2.2.
Proof.
  intros Hlaw Hf Hown Hit Hx Ho Hp.
  destruct (own_run f opt x max_iter verbose h o Hlaw Hf Hown Hit Hx Ho Hp)
    as (r & o' & Hrun & Hrec & _ & _ & Hbr & Hstore & Hd & _).
  by exists r, o'.
Qed.


Lemma descent_rows f opt n :
  ∀ v j a,
    (descent f opt n v).1 !! j = Some a →
    ltb (sum_sq (gradient f a)) tol = false ∧
    (j = 0 → a = v) ∧
    (∀ b, (descent f opt n v).1 !! S j = Some b →
          b = advance opt a (gradient f a)).
Proof.
  induction n as [|n IH]; intros v j a; cbn; [done|].
  destruct (ltb (sum_sq (gradient f v)) tol) eqn:Hv; cbn; [done|].
  destruct (descent f opt n (advance opt v (gradient f v)))
    as [rows e] eqn:Hd. cbn.
  pose proof (IH (advance opt v (gradient f v))) as IHv.
  rewrite Hd in IHv. cbn in IHv.
  destruct j as [|j]; cbn.
  - intros [= <-]. split; [done|]. split; [done|].
    intros b Hb. by destruct (IHv 0 b Hb) as (_ & -> & _).
  - intros Ha. destruct (IHv j a Ha) as (Hna & _ & Hnext).
    split; [done|]. split; [done|]. exact Hnext.
Qed.

(** The rows that [minimize] returns with [GradientDescent]: the first
    is the initial value of the iterate; each next one is the one before
    minus [lr] times the gradient there; at none of them is the sum of
    squares of the gradient below the threshold. *)
Theorem GradientDescent_rows f x (lr : R) max_iter verbose h o rows :
  add_zero_law → grad_shape f →
  h !! x = Some o → shaped o → (verbose = true → 2 ≤ length (data o)) →
  minimize f (GradientDescent [x] lr) max_iter verbose h = Ok rows →
  rows !! 0 = Some (data o) ∧
  ∀ j a, rows !! j = Some a →
    ltb (sum_sq (gradient f a)) tol = false ∧
    (∀ b, rows !! S j = Some b →
          b = zip_with (gd_rule lr) a (gradient f a)).
Proof.
  intros Hlaw Hf Hx Ho Hp.
  rewrite (minimize_descent_value f (GradientDescent [x] lr) x max_iter
             verbose h o Hlaw Hf I eq_refl Hx Ho Hp).
  destruct (descent f (GradientDescent [x] lr) max_iter (data o)).1
    as [|v rows'] eqn:E; [discriminate|].
  intros [= <-]. rewrite <- E. split.
  - destruct (descent_rows f (GradientDescent [x] lr) max_iter (data o) 0 v)
      as (_ & Hv & _); [by rewrite E|]. rewrite E. cbn. by rewrite Hv.
  - intros j a Ha.
    destruct (descent_rows f _ max_iter (data o) j a Ha) as (Hna & _ & Hnext).
    by split.
Qed.

Lemma descent_momentum f ps (lr mu : R) vs n v :
  ltb (sum_sq (gradient f v)) tol = false →
  descent f (MomentumGradientDescent ps lr mu vs) n v
  = (replicate n v, (v, false)).
Proof.
  intros Hv. induction n as [|n IH]; [done|].
  cbn. rewrite Hv. cbn in IH. by rewrite IH.
Qed.

(** With [MomentumGradientDescent] as it is written, [minimize] with a
    budget of at least one iteration either raises at once, when the
    gradient at the initial point meets the threshold, or uses up the
    budget and returns [max_iter] copies of the initial point. *)
Theorem MomentumGradientDescent_uses_budget
    f x (lr mu : R) vs n verbose h o :
  add_zero_law → grad_shape f →
  h !! x = Some o → shaped o → (verbose = true → 2 ≤ length (data o)) →
  minimize f (MomentumGradientDescent [x] lr mu vs) (S n) verbose h
  = if ltb (sum_sq (gradient f (data o))) tol
    then Raise RuntimeError
    else Ok (replicate (S n) (data o)).
Proof.
  intros Hlaw Hf Hx Ho Hp.
  rewrite (minimize_descent_value f (MomentumGradientDescent [x] lr mu vs)
             x (S n) verbose h o Hlaw Hf I eq_refl Hx Ho Hp).
  destruct (ltb (sum_sq (gradient f (data o))) tol) eqn:Hv.
  - cbn. by rewrite Hv.
  - by rewrite descent_momentum.
Qed.

Lemma iterations_own_tested f opt x n :
  add_zero_law → grad_shape f → own opt → get_iterate opt = Ok x →
  ∀ h o ts b opt' h',
    h !! x = Some o → shaped o →
    iterations f x n opt h ts b opt' h' →
    ts = map (λ v, squared_norm (gradient f v))
             ((descent f opt n (data o)).1
              ++ (if (descent f opt n (data o)).2.2
                  then [(descent f opt n (data o)).2.1] else [])).
Proof.
  intros Hlaw Hf Hown Hit.
  induction n as [|n IH]; intros h o ts b opt' h' Hx Ho Hits.
  - by inversion Hits.
  - assert (Hlt : x < length h) by (by eapply lookup_lt_Some).
    set (o2 := Tensor (data o) (Some (gradient f (data o)))).
    assert (Hpass : ∀ opt1 h2 g, gradient_pass f x opt h opt1 h2 g →
              opt1 = opt ∧ h2 = <[x := o2]> h ∧ g = gradient f (data o)).
    { intros opt1 h2 g (h1 & o' & Hz & Hbw & Hx2 & Hg).
      rewrite (zero_grad_own opt h x o Hown Hit Hx) in Hz.
      injection Hz as <- <-.
      rewrite (backward_zeroed f h x o Hlaw Hf Hx Ho) in Hbw.
      injection Hbw as <-.
      rewrite list_lookup_insert_eq in Hx2 by done.
      injection Hx2 as <-. cbn in Hg. injection Hg as <-. done. }
    cbn [descent]. rewrite sum_sq_squared_norm.
    inversion Hits as [|? ? ? opt1 h2 g Hgp Hv|
                       ? ? ? opt1 h2 g opt2 h4 ts' ? ? ? Hgp Hv Hup Hrest];
      subst; destruct (Hpass _ _ _ Hgp) as (-> & -> & ->); rewrite Hv.
    + done.
    + destruct Hup as (o' & Hx2 & Hst).
      rewrite list_lookup_insert_eq in Hx2 by done. injection Hx2 as <-.
      assert (Hx3 : (<[x := o2]> h ++ [Tensor (data o2) None]) !! x
                    = Some o2).
      { rewrite lookup_app_l by (by rewrite length_insert).
        by apply list_lookup_insert_eq. }
      rewrite (step_own opt _ x (data o) (gradient f (data o)) Hown Hit Hx3)
        in Hst by apply Hf.
      injection Hst as <- <-.
      set (o4 := Tensor (advance opt (data o) (gradient f (data o)))
                        (Some (gradient f (data o)))) in *.
      assert (Hx4 : <[x := o4]> (<[x := o2]> h ++ [Tensor (data o2) None])
                    !! x = Some o4).
      { apply list_lookup_insert_eq. by eapply lookup_lt_Some. }
      assert (Ho4 : shaped o4).
      { intros g' [= <-]. cbn. by rewrite length_advance by apply Hf. }
      rewrite (IH _ o4 _ _ _ _ Hx4 Ho4 Hrest) at 1.
      cbn [data o4].
      by destruct (descent f opt n
                     (advance opt (data o) (gradient f (data o))))
        as [rows [v e]].
Qed.

(** C1.  A run of [minimize] on a tensor [x] of the store returns, after
    at most [max_iter] iterations.  It is a run of the description: in
    every iteration [zero_grad] and [backward] are called and the
    squared L2 norm of the gradient that the iterate then holds is
    compared with [1e-6]; the loop is left at an iteration exactly when
    that number is below the threshold, and otherwise the value is
    recorded and the optimizer steps.  When no such number is below the
    threshold, all [max_iter] iterations are made, with one optimizer
    step in each.  With an optimizer of the notebook the numbers
    compared are the squared norms of the gradient of [f] at the values
    at which the steps are made, and then, if the loop is left early, at
    the value the iterate is left with. *)
Theorem minimize_stops f opt x max_iter verbose h :
  grad_shape f → get_iterate opt = Ok x → well_behaved opt x →
  tensor_ok h x → printable verbose h x →
  ∃ r, minimize_run f opt max_iter verbose h = Ok r ∧
       iterations f x max_iter opt h (tested r) (broke r) (optim r)
                  (final r) ∧
       length (tested r) ≤ max_iter ∧
       stopping max_iter (tested r) (broke r) ∧
       (∀ i v, tested r !! i = Some v →
          (ltb v tol = true ↔ broke r = true ∧ S i = length (tested r))) ∧
       (Forall (λ v, ltb v tol = false) (tested r) →
          length (tested r) = max_iter ∧ length (stepped r) = max_iter) ∧
       (own opt → add_zero_law →
        ∃ o', final r !! x = Some o' ∧
              tested r
              = map (λ v, squared_norm (gradient f v))
                    (stepped r ++ (if broke r then [data o'] else []))).
Proof.
  intros Hf Hit Hwb Hok Hpr.
  destruct (minimize_run_spec f opt x max_iter verbose h Hf Hit Hwb Hok Hpr)
    as (r & Hrun & _ & _ & _ & Hstop & Hlen & _).
  pose proof (minimize_run_iterations f opt x max_iter verbose h r Hit Hrun)
    as Hits.
  exists r. split; [done|]. split; [done|].
  split; [apply (stopping_length _ _ _ Hstop)|]. split; [done|].
  split; [intros i v; apply (stopping_pointwise _ _ _ _ _ Hstop)|].
  split.
  - intros Hall.
    inversion Hstop as [ts Hl _ Ets Eb|ts v Hl _ Hv Ets Eb].
    + rewrite <- Eb, <- Ets in Hlen. split; [done|congruence].
    + apply Forall_app in Hall as [_ Hlast].
      inversion Hlast; subst. congruence.
  - intros Hown Hlaw. destruct Hok as (o & Hx & Ho).
    destruct (own_run f opt x max_iter verbose h o Hlaw Hf Hown Hit Hx Ho)
      as (r2 & o' & Hrun2 & _ & _ & Hstp & Hbr & Hfin & Hd & _).
    { intros Hvb. destruct (Hpr Hvb) as (o1 & Hx1 & Hlen1). congruence. }
    rewrite Hrun in Hrun2. injection Hrun2 as <-.
    exists o'. split.
    + rewrite Hfin, lookup_app_l by
        (rewrite length_insert; by eapply lookup_lt_Some).
      apply list_lookup_insert_eq. by eapply lookup_lt_Some.
    + rewrite Hstp, Hbr, Hd.
      by apply (iterations_own_tested f opt x max_iter Hlaw Hf Hown Hit
                  h o _ _ _ _ Hx Ho Hits).
Qed.

(** Printing does not change what [minimize] returns: on an iterate of
    at least two elements the verbose run and the quiet one return the
    same rows, or raise alike. *)
Theorem minimize_verbose_same_rows f opt x max_iter h o :
  add_zero_law → grad_shape f → own opt → get_iterate opt = Ok x →
  h !! x = Some o → shaped o → 2 ≤ length (data o) →
  minimize f opt max_iter true h = minimize f opt max_iter false h.
Proof.
  intros Hlaw Hf Hown Hit Hx Ho Hlen.
  rewrite (minimize_descent_value f opt x max_iter true h o) by done.
  by rewrite (minimize_descent_value f opt x max_iter false h o).
Qed.

(** The verbose mode formats [iterate[0]] and [iterate[1]]: on an
    iterate of fewer than two elements a verbose [minimize] with a
    budget of at least one iteration raises [IndexError] in the first
    iteration, at the message of convergence or at the one of iteration
    0, whatever the objective.  The quiet run on the same input never
    raises [IndexError]: it raises [RuntimeError] when the gradient at
    the initial point meets the threshold, and otherwise returns rows,
    the first of which is the initial point. *)
Theorem minimize_verbose_short_iterate f opt x n h o :
  add_zero_law → grad_shape f → own opt → get_iterate opt = Ok x →
  h !! x = Some o → shaped o → length (data o) < 2 →
  minimize f opt (S n) true h = Raise IndexError ∧
  (ltb (sum_sq (gradient f (data o))) tol = true →
   minimize f opt (S n) false h = Raise RuntimeError) ∧
  (ltb (sum_sq (gradient f (data o))) tol = false →
   ∃ rows, minimize f opt (S n) false h = Ok (data o :: rows)).
Proof.
  intros Hlaw Hf Hown Hit Hx Ho Hlen.
  split; [|rewrite (minimize_descent_value f opt x (S n) false h o) by done;
           cbn [descent]; split; intros ->; [done|];
           destruct (descent f opt n _) as [rows e]; by exists rows].
  assert (Hlt : x < length h) by (by eapply lookup_lt_Some).
  unfold minimize, minimize_run. rewrite Hit.
  cbn [mbind pyresult_bind minimize_loop start optim final].
  rewrite (zero_grad_own opt h x o Hown Hit Hx).
  cbn [mbind pyresult_bind].
  rewrite (backward_zeroed f h x o Hlaw Hf Hx Ho).
  cbn [mbind pyresult_bind].
  set (o2 := Tensor (data o) (Some (gradient f (data o)))).
  assert (Hx2 : <[x := o2]> h !! x = Some o2)
    by (by apply list_lookup_insert_eq).
  unfold get_grad. rewrite (deref_Some _ _ _ Hx2).
  cbn [mbind pyresult_bind grad o2].
  destruct (ltb (sum_sq (gradient f (data o))) tol).
  - unfold print, report. rewrite (deref_Some _ _ _ Hx2).
    cbn [mbind pyresult_bind data o2].
    rewrite decide_False by lia. done.
  - unfold clone_data. rewrite (deref_Some _ _ _ Hx2).
    cbn [mbind pyresult_bind data o2].
    assert (Hx3 : (<[x := o2]> h ++ [Tensor (data o) None]) !! x = Some o2).
    { rewrite lookup_app_l by (by rewrite length_insert). exact Hx2. }
    change (0 mod 10 =? 0) with true. cbn [andb].
    unfold print, report. rewrite (deref_Some _ _ _ Hx3).
    cbn [mbind pyresult_bind data o2].
    rewrite decide_False by lia. done.
Qed.

End MoreDriver.

(** * The further properties on sample inputs *)

Section MoreSampleRuns.
Import Samples.
Local Open Scope Q_scope.

Lemma Q_add_zero : add_zero_law (R := Q).
Proof.
  intros [n d]. unfold add, zero, lit, Q_scalar, Qplus. cbn.
  f_equal. apply Z.mul_1_r.
Defined.

Lemma shaped_fresh : shaped (Tensor init None).
Proof. intros g Hg. discriminate Hg. Defined.

Lemma two_dimensional verbose :
  verbose = true → (2 ≤ length (data (Tensor init None)))%nat.
Proof. intros _. apply le_n. Defined.

Lemma all_shaped_trained : all_shaped [0%nat; 2%nat; 0%nat] trained.
Proof.
  repeat constructor.
  - exists (Tensor [1; 2] (Some [3; 4])). split; [reflexivity|].
    intros g Hg. injection Hg as <-. reflexivity.
  - exists (Tensor [7] None). split; [reflexivity|].
    intros g Hg. discriminate Hg.
  - exists (Tensor [1; 2] (Some [3; 4])). split; [reflexivity|].
    intros g Hg. injection Hg as <-. reflexivity.
Defined.

Lemma GradientDescent_step_needs_gradients_sample :
  all_shaped [0%nat; 2%nat; 0%nat] trained ∧
  Exists (lacks_gradient trained) [0%nat; 2%nat; 0%nat] ∧
  step (GradientDescent [0%nat; 2%nat; 0%nat] default_lr) trained
  = Raise TypeError.
Proof.
  assert (Exists (lacks_gradient trained) [0%nat; 2%nat; 0%nat]) as Hex.
  { apply Exists_cons_tl, Exists_cons_hd. exists (Tensor [7] None).
    split; reflexivity. }
  split; [exact all_shaped_trained|]. split; [exact Hex|].
  exact (proj2 (GradientDescent_step_needs_gradients
                  [0%nat; 2%nat; 0%nat] default_lr trained
                  all_shaped_trained) Hex).
Defined.

Lemma zero_grad_idempotent_sample :
  allocated [0%nat; 2%nat; 0%nat] trained ∧
  ∀ h1, zero_grad (GradientDescent [0%nat; 2%nat; 0%nat] default_lr) trained
        = Ok (GradientDescent [0%nat; 2%nat; 0%nat] default_lr, h1) →
        zero_grad (GradientDescent [0%nat; 2%nat; 0%nat] default_lr) h1
        = Ok (GradientDescent [0%nat; 2%nat; 0%nat] default_lr, h1).
Proof.
  split; [exact allocated_trained|].
  exact (proj1 (zero_grad_idempotent [0%nat; 2%nat; 0%nat] default_lr
                  default_momentum [] trained allocated_trained)).
Defined.

Lemma MomentumGradientDescent_init_velocities_sample :
  allocated [0%nat; 2%nat; 0%nat] trained ∧
  ∃ vels, MomentumGradientDescent_init [0%nat; 2%nat; 0%nat] default_lr
            default_momentum trained
          = Ok (MomentumGradientDescent [0%nat; 2%nat; 0%nat] default_lr
                  default_momentum (seq (length trained) 3),
                trained ++ vels) ∧
          Forall2 (λ p v, ∃ o, trained !! p = Some o ∧
                     v = Tensor (replicate (length (data o)) zero) None)
                  [0%nat; 2%nat; 0%nat] vels.
Proof.
  split; [exact allocated_trained|].
  exact (MomentumGradientDescent_init_velocities [0%nat; 2%nat; 0%nat]
           default_lr default_momentum trained allocated_trained).
Defined.

Example MomentumGradientDescent_init_trained :
  MomentumGradientDescent_init [0%nat; 2%nat; 0%nat] default_lr
    default_momentum trained
  = Ok (MomentumGradientDescent [0%nat; 2%nat; 0%nat] default_lr
          default_momentum [3%nat; 4%nat; 5%nat],
        trained ++ [Tensor [0; 0] None; Tensor [0] None; Tensor [0; 0] None]).
Proof. reflexivity. Qed.

Lemma minimize_is_descent_sample :
  let opt := GradientDescent [0%nat] default_lr in
  add_zero_law (R := Q) ∧ grad_shape slope ∧ own opt
  ∧ get_iterate opt = Ok 0%nat ∧ fresh !! 0%nat = Some (Tensor init None)
  ∧ shaped (Tensor init None)
  ∧ minimize slope opt 3 true fresh
    = match (descent slope opt 3 init).1 with
      | [] => Raise RuntimeError
      | rows => Ok rows
      end.
Proof.
  cbv zeta. split; [exact Q_add_zero|]. split; [exact grad_shape_slope|].
  split; [exact I|]. split; [reflexivity|]. split; [reflexivity|].
  split; [exact shaped_fresh|].
  exact (minimize_is_descent slope (GradientDescent [0%nat] default_lr) 0 3
           true fresh (Tensor init None) Q_add_zero grad_shape_slope I
           eq_refl eq_refl shaped_fresh (two_dimensional true)).
Defined.

Lemma minimize_final_store_sample :
  let opt := GradientDescent [0%nat] default_lr in
  add_zero_law (R := Q) ∧ grad_shape slope ∧ own opt
  ∧ get_iterate opt = Ok 0%nat ∧ fresh !! 0%nat = Some (Tensor init None)
  ∧ shaped (Tensor init None)
  ∧ ∃ r o',
      minimize_run slope opt 3 false fresh = Ok r ∧
      final r = <[0%nat := o']> fresh
                ++ map (λ v, Tensor v None) (descent slope opt 3 init).1 ∧
      data o' = (descent slope opt 3 init).2.1 ∧
      iterate_record r
      = seq (length fresh) (length (descent slope opt 3 init).1) ∧
      broke r = (descent slope opt 3 init).2.2.
Proof.
  cbv zeta. split; [exact Q_add_zero|]. split; [exact grad_shape_slope|].
  split; [exact I|]. split; [reflexivity|]. split; [reflexivity|].
  split; [exact shaped_fresh|].
  exact (minimize_final_store slope (GradientDescent [0%nat] default_lr) 0 3
           false fresh (Tensor init None) Q_add_zero grad_shape_slope I
           eq_refl eq_refl shaped_fresh (two_dimensional false)).
Defined.


Example minimize_messages_twelve :
  (r ← minimize_run slope (GradientDescent [0%nat] default_lr) 12 true fresh;
   Ok (printed r))
  = Ok [Iteration 0; Iteration 10].
Proof. vm_compute. reflexivity. Qed.

Lemma GradientDescent_rows_sample :
  let rows := [[4 # 5; 4 # 5]; [35 # 50; 35 # 50]; [300 # 500; 300 # 500]] in
  add_zero_law (R := Q) ∧ grad_shape slope
  ∧ fresh !! 0%nat = Some (Tensor init None) ∧ shaped (Tensor init None)
  ∧ minimize slope (GradientDescent [0%nat] default_lr) 3 false fresh
    = Ok rows
  ∧ rows !! 0%nat = Some init
  ∧ ∀ j a, rows !! j = Some a →
      ltb (sum_sq (gradient slope a)) tol = false ∧
      (∀ b, rows !! S j = Some b →
            b = zip_with (gd_rule default_lr) a (gradient slope a)).
Proof.
  cbv zeta. split; [exact Q_add_zero|]. split; [exact grad_shape_slope|].
  split; [reflexivity|]. split; [exact shaped_fresh|].
  split; [reflexivity|].
  exact (GradientDescent_rows slope 0 default_lr 3 false fresh
           (Tensor init None) _ Q_add_zero grad_shape_slope eq_refl
           shaped_fresh (two_dimensional false) eq_refl).
Defined.

Lemma MomentumGradientDescent_uses_budget_sample :
  let h := fresh ++ [Tensor [0; 0] None] in
  add_zero_law (R := Q) ∧ grad_shape slope
  ∧ h !! 0%nat = Some (Tensor init None) ∧ shaped (Tensor init None)
  ∧ minimize slope
      (MomentumGradientDescent [0%nat] default_lr default_momentum [1%nat])
      default_max_iter false h
    = (if ltb (sum_sq (gradient slope init)) tol
       then Raise RuntimeError
       else Ok (replicate default_max_iter init)).
Proof.
  cbv zeta. split; [exact Q_add_zero|]. split; [exact grad_shape_slope|].
  split; [reflexivity|]. split; [exact shaped_fresh|].
  exact (MomentumGradientDescent_uses_budget slope 0 default_lr
           default_momentum [1%nat] 499 false
           (fresh ++ [Tensor [0; 0] None]) (Tensor init None)
           Q_add_zero grad_shape_slope eq_refl shaped_fresh
           (two_dimensional false)).
Defined.

Lemma minimize_row_count_sample :
  minimize slope (GradientDescent [0%nat] default_lr) 3 false fresh
  = Ok [[4 # 5; 4 # 5]; [35 # 50; 35 # 50]; [300 # 500; 300 # 500]]
  ∧ (1 ≤ 3 ≤ 3)%nat.
Proof.
  split; [reflexivity|].
  exact (proj1 (minimize_row_count slope (GradientDescent [0%nat] default_lr)
                  3 false fresh)
               [[4 # 5; 4 # 5]; [35 # 50; 35 # 50]; [300 # 500; 300 # 500]]
               eq_refl).
Defined.

(** C1 on a sample: three iterations with the linear objective, in
    verbose mode. *)
Lemma minimize_stops_sample :
  let opt := GradientDescent [0%nat] default_lr in
  grad_shape slope ∧ get_iterate opt = Ok 0%nat ∧ well_behaved opt 0
  ∧ tensor_ok fresh 0 ∧ printable true fresh 0 ∧
  ∃ r, minimize_run slope opt 3 true fresh = Ok r ∧
       iterations slope 0 3 opt fresh (tested r) (broke r) (optim r)
                  (final r) ∧
       (length (tested r) ≤ 3)%nat ∧
       stopping 3 (tested r) (broke r) ∧
       (∀ i v, tested r !! i = Some v →
          (ltb v tol = true ↔ broke r = true ∧ S i = length (tested r))) ∧
       (Forall (λ v, ltb v tol = false) (tested r) →
          length (tested r) = 3%nat ∧ length (stepped r) = 3%nat) ∧
       (own opt → add_zero_law (R := Q) →
        ∃ o', final r !! 0%nat = Some o' ∧
              tested r
              = map (λ v, squared_norm (gradient slope v))
                    (stepped r ++ (if broke r then [data o'] else []))).
Proof.
  cbv zeta. split; [exact grad_shape_slope|]. split; [reflexivity|].
  split; [exact I|]. split; [exact tensor_ok_fresh|].
  split; [exact (printable_fresh true)|].
  apply (minimize_stops slope (GradientDescent [0%nat] default_lr) 0 3 true
           fresh).
  - exact grad_shape_slope.
  - reflexivity.
  - exact I.
  - exact tensor_ok_fresh.
  - exact (printable_fresh true).
Defined.

(** The numbers that this run compares with the threshold. *)
Example slope_run_tested :
  ∃ r, minimize_run slope (GradientDescent [0%nat] default_lr) 3 true fresh
       = Ok r ∧ tested r = [2; 2; 2] ∧ broke r = false
       ∧ stepped r
         = [[4 # 5; 4 # 5]; [35 # 50; 35 # 50]; [300 # 500; 300 # 500]].
Proof. eexists. split; [vm_compute; reflexivity|]. by vm_compute. Qed.

Lemma minimize_verbose_same_rows_sample :
  let opt := GradientDescent [0%nat] default_lr in
  add_zero_law (R := Q) ∧ grad_shape slope ∧ own opt
  ∧ get_iterate opt = Ok 0%nat ∧ fresh !! 0%nat = Some (Tensor init None)
  ∧ shaped (Tensor init None) ∧ (2 ≤ length (data (Tensor init None)))%nat
  ∧ minimize slope opt 12 true fresh = minimize slope opt 12 false fresh.
Proof.
  cbv zeta. split; [exact Q_add_zero|]. split; [exact grad_shape_slope|].
  split; [exact I|]. split; [reflexivity|]. split; [reflexivity|].
  split; [exact shaped_fresh|]. split; [apply le_n|].
  exact (minimize_verbose_same_rows slope (GradientDescent [0%nat] default_lr)
           0 12 fresh (Tensor init None) Q_add_zero grad_shape_slope I
           eq_refl eq_refl shaped_fresh (le_n 2)).
Defined.

Lemma shaped_shared : shaped (Tensor [1] (Some [1])).
Proof. intros g Hg. injection Hg as <-. reflexivity. Defined.

Example minimize_quiet_short_iterate :
  minimize slope (GradientDescent [0%nat] default_lr) 5 false shared
  = Ok [[1]; [9 # 10]; [80 # 100]; [700 # 1000]; [6000 # 10000]]
  ∧ minimize flat (GradientDescent [0%nat] default_lr) 5 false shared
    = Raise RuntimeError.
Proof. split; vm_compute; reflexivity. Qed.

Lemma minimize_verbose_short_iterate_sample :
  let opt := GradientDescent [0%nat] default_lr in
  add_zero_law (R := Q) ∧ grad_shape slope ∧ own opt
  ∧ get_iterate opt = Ok 0%nat
  ∧ shared !! 0%nat = Some (Tensor [1] (Some [1]))
  ∧ shaped (Tensor [1] (Some [1]))
  ∧ (length (data (Tensor [1] (Some [1]))) < 2)%nat
  ∧ minimize slope opt 5 true shared = Raise IndexError
  ∧ (ltb (sum_sq (gradient slope [1])) tol = true →
     minimize slope opt 5 false shared = Raise RuntimeError)
  ∧ (ltb (sum_sq (gradient slope [1])) tol = false →
     ∃ rows, minimize slope opt 5 false shared = Ok ([1] :: rows)).
Proof.
  cbv zeta. split; [exact Q_add_zero|]. split; [exact grad_shape_slope|].
  split; [exact I|]. split; [reflexivity|]. split; [reflexivity|].
  split; [exact shaped_shared|]. split; [apply le_n|].
  exact (minimize_verbose_short_iterate slope
           (GradientDescent [0%nat] default_lr) 0 4 shared
           (Tensor [1] (Some [1])) Q_add_zero grad_shape_slope I
           eq_refl eq_refl shaped_shared (le_n 2)).
Defined.

End MoreSampleRuns.

(** * Further properties of the Gaussian objective *)

Section MoreGaussians.
Context {R : Type} `{Scalar R} `{Exponential R}.
Implicit Types (g : Gaussian R) (f : GaussianCombination R)
               (v : list R) (rows : list (list R)).

Lemma Gaussian_init_inv (P m : array R) g :
  Gaussian_init P m = Ok g →
  g = MkGaussian P m ∧ gaussian_shapes P m.
Proof.
  unfold Gaussian_init, gaussian_shapes.
  destruct (decide (shape P = [2; 2])); [|discriminate].
  destruct (decide (shape m = [2])); [|discriminate].
  by intros [= <-].
Qed.

Lemma make_gaussians_inv (pms : list (array R * array R)) gs :
  make_gaussians pms = Ok gs →
  gs = map (λ pm, MkGaussian pm.1 pm.2) pms ∧
  Forall (λ pm, gaussian_shapes pm.1 pm.2) pms.
Proof.
  revert gs. induction pms as [|[P m] pms IH]; intros gs; cbn.
  - by intros [= <-].
  - destruct (Gaussian_init P m) as [g|] eqn:Hg; cbn; [|discriminate].
    destruct (make_gaussians pms) as [gs'|]; cbn; [|discriminate].
    intros [= <-]. destruct (Gaussian_init_inv P m g Hg) as [-> Hs].
    destruct (IH gs' eq_refl) as [-> Hall]. split; [done|by constructor].
Qed.

(** A combination that [GaussianCombination.__init__] returns has one
    Gaussian for each weight, built from the matching precision and
    mean, and every one of them has a precision of shape [(2, 2)] and a
    mean of shape [(2,)]. *)
Theorem GaussianCombination_init_invariant
    (Ps ms : list (array R)) (ws : list Q) f :
  GaussianCombination_init Ps ms ws = Ok f →
  weights f = ws ∧
  gaussians f = zip_with MkGaussian Ps ms ∧
  length (gaussians f) = length (weights f) ∧
  Forall (λ g, gaussian_shapes (precision g) (mean g)) (gaussians f).
Proof.
  unfold GaussianCombination_init.
  destruct (decide _) as [[HPm Hmw]|]; [|discriminate].
  destruct (make_gaussians (zip Ps ms)) as [gs|] eqn:Hgs; cbn; [|discriminate].
  intros [= <-]. cbn.
  destruct (make_gaussians_inv _ _ Hgs) as [-> Hall].
  split; [done|].
  assert (map (λ pm, MkGaussian pm.1 pm.2) (zip Ps ms)
          = zip_with MkGaussian Ps ms) as ->.
  { clear. revert ms. induction Ps as [|P Ps IH]; intros [|m ms]; try done.
    cbn. by rewrite IH. }
  split; [done|]. split.
  - rewrite length_zip_with. lia.
  - clear -Hall. revert ms Hall.
    induction Ps as [|P Ps IH]; intros [|m ms] Hall; cbn; try constructor.
    + by inversion Hall.
    + apply IH. by inversion Hall.
Qed.

Lemma Gaussian_forward_cons g v rows :
  length v = 2 →
  Gaussian_forward g (Batch (v :: rows))
  = e ← Gaussian_forward g (Point v);
    t ← Gaussian_forward g (Batch rows);
    Some (e ++ t).
Proof.
  intros Hv. unfold Gaussian_forward, centered. cbn.
  rewrite Hv. cbn. rewrite decide_True by done. cbn.
  by destruct (forallb _ rows).
Qed.

Lemma Gaussian_forward_point_single g v :
  length v = 2 → ∃ e, Gaussian_forward g (Point v) = Some [e].
Proof.
  intros Hv. unfold Gaussian_forward, centered.
  rewrite decide_True by done. cbn. by eexists.
Qed.

(** [Gaussian.forward] on a batch of 2D-vectors returns one number for
    each row, the one it returns on that row alone. *)
Theorem Gaussian_forward_rowwise g rows :
  Forall (λ v, length v = 2) rows →
  ∃ vals, Gaussian_forward g (Batch rows) = Some vals ∧
          Forall2 (λ v e, Gaussian_forward g (Point v) = Some [e]) rows vals.
Proof.
  induction 1 as [|v rows Hv _ (vals & Hb & Hall)].
  - exists []. split; [done|constructor].
  - destruct (Gaussian_forward_point_single g v Hv) as (e & He).
    exists (e :: vals). rewrite (Gaussian_forward_cons g v rows Hv), He, Hb.
    split; [done|]. by constructor.
Qed.

Lemma weighted_cons (gws : list (Gaussian R * Q)) v rows :
  length v = 2 →
  weighted gws (Batch (v :: rows))
  = tp ← weighted gws (Point v);
    tb ← weighted gws (Batch rows);
    Some (zip_with app tp tb).
Proof.
  intros Hv. induction gws as [|[g w] gws IH]; [done|].
  cbn [weighted]. rewrite IH, (Gaussian_forward_cons g v rows Hv).
  destruct (Gaussian_forward g (Point v)) as [e|]; cbn [mbind option_bind]; [|done].
  destruct (Gaussian_forward g (Batch rows)) as [t|]; cbn [mbind option_bind].
  - destruct (weighted gws (Point v)) as [tp|]; cbn [mbind option_bind]; [|done].
    destruct (weighted gws (Batch rows)) as [tb|]; cbn [mbind option_bind]; [|done].
    by rewrite map_app.
  - by destruct (weighted gws (Point v)).
Qed.

Lemma weighted_point (gws : list (Gaussian R * Q)) v :
  length v = 2 →
  ∃ tp, weighted gws (Point v) = Some tp ∧ length tp = length gws ∧
        Forall (λ t, ∃ e, t = [e]) tp.
Proof.
  intros Hv. induction gws as [|[g w] gws (tp & Htp & Hlen & Hall)].
  - exists []. by repeat split.
  - destruct (Gaussian_forward_point_single g v Hv) as (e & He).
    exists (map (mul (lit w)) [e] :: tp). cbn [weighted]. rewrite He, Htp.
    cbn [mbind option_bind length]. split; [done|]. split; [by rewrite Hlen|].
    constructor; [by eexists|done].
Qed.

Lemma weighted_length (gws : list (Gaussian R * Q)) x ts :
  weighted gws x = Some ts → length ts = length gws.
Proof.
  revert ts. induction gws as [|[g w] gws IH]; intros ts; cbn.
  - by intros [= <-].
  - destruct (Gaussian_forward g x); cbn; [|discriminate].
    destruct (weighted gws x) as [ts'|]; cbn; [|discriminate].
    intros [= <-]. cbn. by rewrite (IH ts').
Qed.

Lemma weighted_empty_batch (gws : list (Gaussian R * Q)) :
  weighted gws (Batch []) = Some (map (λ _, []) gws).
Proof.
  induction gws as [|[g w] gws IH]; [done|].
  cbn [weighted]. rewrite IH. done.
Qed.

Lemma foldl_add_tensor_agree (tp tb : list (list R)) :
  Forall (λ t, ∃ e, t = [e]) tp → length tp = length tb →
  ∀ aP aB a, sums_agree aP aB a →
    sums_agree (foldl add_tensor aP tp) (foldl add_tensor aB tb)
               (foldl add_tensor a (zip_with app tp tb)).
Proof.
  intros Hall. revert tb.
  induction Hall as [|t tp (e & ->) _ IH]; intros [|t1 tb] Hlen aP aB a Ha;
    try done.
  cbn. apply IH; [by injection Hlen|].
  destruct Ha; cbn; constructor.
Qed.

Lemma foldl_add_tensor_tensor (ts : list (list R)) es :
  ∃ es', foldl add_tensor (PyTensor es) ts = PyTensor es'.
Proof.
  revert es. induction ts as [|t ts IH]; intros es; cbn; [by eexists|].
  apply IH.
Qed.

Lemma combination_rowwise f rows :
  gaussians f ≠ [] → weights f ≠ [] →
  Forall (λ v, length v = 2) rows →
  ∃ vals, GaussianCombination_forward f (Batch rows) = Some (PyTensor vals) ∧
          Forall2 (λ v e, GaussianCombination_forward f (Point v)
                          = Some (PyTensor [e])) rows vals.
Proof.
  intros Hg Hw. unfold GaussianCombination_forward.
  set (gws := zip (gaussians f) (weights f)).
  assert (Hne : gws ≠ []).
  { unfold gws. destruct (gaussians f); [done|]. by destruct (weights f). }
  clearbody gws. clear Hg Hw.
  induction 1 as [|v rows Hv _ (vals & Hb & Hall)].
  - exists []. rewrite weighted_empty_batch. cbn. split; [|constructor].
    destruct gws as [|gw gws]; [done|]. cbn. f_equal.
    clear. induction gws as [|? ? IH]; [done|]. cbn. exact IH.
  - destruct (weighted_point gws v Hv) as (tp & Htp & Hlen & Hsingle).
    rewrite (weighted_cons gws v rows Hv), Htp. cbn.
    destruct (weighted gws (Batch rows)) as [tb|] eqn:Htb; [|discriminate].
    cbn in Hb |- *. injection Hb as Hb.
    pose proof (foldl_add_tensor_agree tp tb Hsingle) as Hagree.
    rewrite Hlen, (weighted_length _ _ _ Htb) in Hagree.
    specialize (Hagree eq_refl _ _ _ (agree_start 0)).
    rewrite Hb in Hagree. inversion Hagree as [|e es HP HB HA]; subst.
    exists (e :: vals). split; [done|].
    constructor; [|done]. rewrite Htp. cbn. by rewrite <- HP.
Qed.

(** [GaussianCombination.forward] of a combination that is not empty,
    on a batch of 2D-vectors: it returns one number for each row, the
    one it returns on that row alone. *)
Theorem GaussianCombination_forward_rowwise f rows :
  gaussians f ≠ [] → weights f ≠ [] →
  Forall (λ v, length v = 2) rows →
  ∃ vals, GaussianCombination_forward f (Batch rows) = Some (PyTensor vals) ∧
          Forall2 (λ v e, GaussianCombination_forward f (Point v)
                          = Some (PyTensor [e])) rows vals.
Proof. apply combination_rowwise. Qed.

End MoreGaussians.

(** * The norm over the reals *)

Section RealNorm.
Local Open Scope R_scope.
Implicit Types (x : list R) (i : nat).

Lemma sum_sq_cons (a : R) x : sum_sq (a :: x) = a * a + sum_sq x.
Proof. done. Qed.

Lemma sum_sq_nil : sum_sq (@nil R) = 0.
Proof. unfold sum_sq, zero. cbn. apply Q2R_zero. Qed.

Lemma sum_sq_nonneg x : 0 <= sum_sq x.
Proof.
  induction x as [|a x IH]; [rewrite sum_sq_nil; lra|].
  rewrite sum_sq_cons. nra.
Qed.

Lemma sum_sq_zero x : sum_sq x = 0 ↔ Forall (λ e, e = 0) x.
Proof.
  induction x as [|a x IH].
  - split; [constructor|intros _; apply sum_sq_nil].
  - rewrite sum_sq_cons. pose proof (sum_sq_nonneg x) as Hx. split.
    + intros Hs. assert (a = 0) by nra. subst.
      constructor; [done|]. apply IH. nra.
    + intros Hall. inversion Hall; subst. apply IH in H2. nra.
Qed.

Lemma sum_sq_scale (c : R) x : sum_sq (map (Rmult c) x) = c * c * sum_sq x.
Proof.
  induction x as [|a x IH]; [cbn [map]; rewrite sum_sq_nil; ring|].
  cbn [map]. rewrite !sum_sq_cons, IH. ring.
Qed.

Lemma sum_sq_insert x i (t xi : R) :
  x !! i = Some xi → sum_sq (<[i := t]> x) = t * t + (sum_sq x - xi * xi).
Proof.
  revert i. induction x as [|a x IH]; intros [|i] Hi; try done.
  - injection Hi as ->. cbn [insert list_insert]. rewrite !sum_sq_cons. ring.
  - cbn in Hi. change (<[S i := t]> (a :: x)) with (a :: <[i := t]> x).
    rewrite !sum_sq_cons, (IH i Hi). ring.
Qed.

Lemma f_norm_nonneg x : 0 <= f_norm x.
Proof. unfold f_norm. cbn [root R_analytic]. apply sqrt_pos. Qed.

Lemma f_norm_eq_0 x : f_norm x = 0 ↔ Forall (λ e, e = 0) x.
Proof.
  unfold f_norm. cbn [root R_analytic]. rewrite <- sum_sq_zero. split.
  - intros Hs. apply sqrt_eq_0; [apply sum_sq_nonneg|done].
  - intros ->. apply sqrt_0.
Qed.

Lemma f_norm_scale_eq (c : R) x :
  f_norm (map (Rmult c) x) = Rabs c * f_norm x.
Proof.
  unfold f_norm. cbn [root R_analytic]. rewrite sum_sq_scale.
  rewrite sqrt_mult; [|nra|apply sum_sq_nonneg].
  f_equal. replace (c * c) with (c²) by (unfold Rsqr; ring).
  apply sqrt_Rsqr_abs.
Qed.

(** The norm [f] is never negative, and is zero exactly on the vectors
    of zeros. *)
Theorem f_norm_zero x :
  0 <= f_norm x ∧ (f_norm x = 0 ↔ Forall (λ e, e = 0) x).
Proof. split; [apply f_norm_nonneg|apply f_norm_eq_0]. Qed.

(** The norm [f] is absolutely homogeneous:
    [f(c·x) = |c|·f(x)]. *)
Theorem f_norm_scale (c : R) x :
  f_norm (map (Rmult c) x) = Rabs c * f_norm x.
Proof. apply f_norm_scale_eq. Qed.

(** Away from the origin, [expected_grad = x / f(x)] has norm one. *)
Theorem expected_grad_unit x :
  f_norm x ≠ 0 → f_norm (expected_grad x) = 1.
Proof.
  intros Hne. unfold expected_grad. cbn [quot R_analytic].
  assert (map (λ e, e / f_norm x) x = map (Rmult (/ f_norm x)) x) as ->.
  { apply map_ext. intros e. unfold Rdiv. ring. }
  rewrite f_norm_scale_eq.
  pose proof (f_norm_nonneg x) as Hpos.
  rewrite Rabs_right by (apply Rle_ge; left; apply Rinv_0_lt_compat; lra).
  by field.
Qed.

Lemma derivable_pt_lim_eq (f1 f2 : R → R) (a l : R) :
  (∀ t, f1 t = f2 t) → derivable_pt_lim f1 a l → derivable_pt_lim f2 a l.
Proof.
  intros Heq Hd eps Heps. destruct (Hd eps Heps) as [delta Hdelta].
  exists delta. intros h Hh Hlt. rewrite <- !Heq. by apply Hdelta.
Qed.

Lemma lookup_map_Some {A B} (k : A → B) (l : list A) i a :
  l !! i = Some a → map k l !! i = Some (k a).
Proof.
  revert i. induction l as [|b l IH]; intros [|i] Hi; try done.
  - by injection Hi as ->.
  - cbn. by apply IH.
Qed.

(** [expected_grad] is the gradient of [f]: away from the origin, the
    derivative of [f] in its [i]-th argument is the [i]-th element of
    [x / f(x)]. *)
Theorem expected_grad_is_gradient x i (xi : R) :
  x !! i = Some xi → f_norm x ≠ 0 →
  ∃ e, expected_grad x !! i = Some e ∧
       derivable_pt_lim (λ t, f_norm (<[i := t]> x)) xi e.
Proof.
  intros Hi Hne. exists (xi / f_norm x). split.
  { unfold expected_grad. by rewrite (lookup_map_Some _ _ _ _ Hi). }
  set (c := sum_sq x - xi * xi).
  assert (Hsum : xi * xi + c = sum_sq x) by (unfold c; ring).
  assert (Hpos : 0 < sum_sq x).
  { pose proof (sum_sq_nonneg x) as Hge.
    destruct (Req_dec (sum_sq x) 0) as [Hz|Hnz]; [|lra].
    exfalso. apply Hne. unfold f_norm. cbn [root R_analytic].
    rewrite Hz. apply sqrt_0. }
  apply (derivable_pt_lim_eq
           (comp sqrt (plus_fct (mult_fct id id) (fct_cte c)))).
  { intros t. unfold f_norm, comp, plus_fct, mult_fct, id, fct_cte.
    cbn [root R_analytic]. by rewrite (sum_sq_insert x i t xi Hi). }
  replace (xi / f_norm x)
    with (/ (2 * sqrt (sum_sq x)) * (1 * id xi + id xi * 1 + 0)).
  - apply derivable_pt_lim_comp.
    + apply derivable_pt_lim_plus.
      * apply derivable_pt_lim_mult; apply derivable_pt_lim_id.
      * apply derivable_pt_lim_const.
    + unfold plus_fct, mult_fct, id, fct_cte. rewrite Hsum.
      by apply derivable_pt_lim_sqrt.
  - unfold f_norm, id. cbn [root R_analytic]. field.
    intros Hs. apply sqrt_eq_0 in Hs; lra.
Qed.

End RealNorm.

(** * Bounds on the objective over the reals *)

Section RealBounds.
Local Open Scope R_scope.

Lemma bump_at_mean a b c d m0 m1 : bump a b c d m0 m1 m0 m1 = 1.
Proof.
  unfold bump, quad_form.
  replace (- (1 / 2) * _) with 0 by ring. apply exp_0.
Qed.

(** [Gaussian.forward] leaves out the normalising factor: whatever the
    precision, the value at the mean is 1, on the mean as a point and on
    every row of a batch that is the mean. *)
Theorem Gaussian_forward_at_mean (a b c d m0 m1 : R) (k : nat) :
  let g := MkGaussian (Array [2%nat; 2%nat] [a; b; c; d])
                      (Array [2%nat] [m0; m1]) in
  Gaussian_forward g (Point [m0; m1]) = Some [1] ∧
  Gaussian_forward g (Batch (replicate k [m0; m1])) = Some (replicate k 1).
Proof.
  intros g. split.
  - unfold g. rewrite Gaussian_forward_point. by rewrite bump_at_mean.
  - unfold g.
    replace (replicate k [m0; m1])
      with (map (λ p : R * R, [p.1; p.2]) (replicate k (m0, m1)))
      by (induction k as [|k IH]; [done|]; cbn; by rewrite IH).
    rewrite Gaussian_forward_batch. f_equal.
    induction k as [|k IH]; [done|].
    cbn [replicate map fst snd]. by rewrite IH, bump_at_mean.
Qed.

Lemma expected_grad_unit_sample :
  f_norm [3; 4] ≠ 0 ∧ f_norm (expected_grad [3; 4]) = 1.
Proof.
  assert (f_norm [3; 4] ≠ 0) as Hne.
  { intros Hz. apply f_norm_eq_0 in Hz. inversion Hz; subst. lra. }
  split; [exact Hne|]. exact (expected_grad_unit [3; 4] Hne).
Defined.

Lemma expected_grad_is_gradient_sample :
  [3; 4] !! 1%nat = Some 4 ∧ f_norm [3; 4] ≠ 0 ∧
  ∃ e, expected_grad [3; 4] !! 1%nat = Some e ∧
       derivable_pt_lim (λ t, f_norm (<[1%nat := t]> [3; 4])) 4 e.
Proof.
  assert (f_norm [3; 4] ≠ 0) as Hne.
  { intros Hz. apply f_norm_eq_0 in Hz. inversion Hz; subst. lra. }
  split; [reflexivity|]. split; [exact Hne|].
  exact (expected_grad_is_gradient [3; 4] 1 4 eq_refl Hne).
Defined.

End RealBounds.

(** * Properties of the plotting helpers *)

Section MorePlots.
Context {R : Type} `{Scalar R}.
Implicit Types (rows : list (list R)) (r : list R) (a : ndarray R).

Lemma tenth_below n k : k < (n + 9) / 10 ↔ 10 * k < n.
Proof.
  pose proof (Nat.div_mod_eq (n + 9) 10) as Hdiv.
  assert ((n + 9) mod 10 < 10) as Hmod by (apply Nat.mod_upper_bound; lia).
  split; intros Hk; nia.
Qed.

Lemma py_range_tens n :
  py_range 0 n 10 = map (λ k, 10 * k) (seq 0 ((n + 9) / 10)).
Proof.
  unfold py_range. rewrite Nat.sub_0_r.
  replace (n + 10 - 1) with (n + 9) by lia.
  apply map_ext. intros k. lia.
Qed.

Lemma py_range_tens_elem n i :
  i ∈ py_range 0 n 10 ↔ i < n ∧ i mod 10 = 0.
Proof.
  rewrite py_range_tens, list_elem_of_In, in_map_iff. split.
  - intros (k & <- & Hk). apply in_seq in Hk.
    split; [apply tenth_below; lia|].
    rewrite Nat.mul_comm. apply Nat.Div0.mod_mul.
  - intros [Hlt Hmod]. exists (i / 10).
    pose proof (Nat.div_mod_eq i 10) as Hdiv. rewrite Hmod in Hdiv.
    split; [lia|]. apply in_seq. split; [lia|].
    assert (i / 10 < (n + 9) / 10) by (apply tenth_below; lia). lia.
Qed.

Lemma items_at_ok k rows :
  Forall (λ r, k < length r) rows →
  ∃ es, items_at k rows = Ok es ∧ length es = length rows ∧
        ∀ i r, rows !! i = Some r → es !! i = r !! k.
Proof.
  induction 1 as [|r rows Hr _ (es & Hes & Hlen & Hlook)].
  - exists []. by repeat split.
  - destruct (lookup_lt_is_Some_2 r k Hr) as [e He].
    exists (e :: es). cbn [items_at]. unfold item. rewrite He. cbn.
    rewrite Hes. cbn.
    split; [done|]. split; [by rewrite Hlen|].
    intros [|i] r'; cbn; [by intros [= <-]|apply Hlook].
Qed.

Lemma column_ok k a :
  rectangular a → k < n_columns a →
  ∃ es, column k a = Ok es ∧ length es = length (array_rows a) ∧
        ∀ i r, array_rows a !! i = Some r → es !! i = r !! k.
Proof.
  intros Hrect Hk. unfold column. rewrite decide_True by done.
  apply items_at_ok. eapply Forall_impl; [exact Hrect|].
  cbn. intros r ->. exact Hk.
Qed.

Lemma annotate_ok (indices : list nat) a :
  rectangular a → 2 ≤ n_columns a →
  Forall (λ i, i < length (array_rows a)) indices →
  ∃ tags, annotate indices a = Ok tags ∧ map fst tags = indices ∧
          Forall (tag_of_row (array_rows a)) tags.
Proof.
  intros Hrect Hw.
  induction 1 as [|i indices Hi _ (tags & Htags & Hfst & Hall)].
  - exists []. by repeat split.
  - destruct (lookup_lt_is_Some_2 (array_rows a) i Hi) as [r Hr].
    assert (length r = n_columns a) as Hlen.
    { by apply (proj1 (Forall_lookup _ _) Hrect i r). }
    destruct (lookup_lt_is_Some_2 r 0) as [u Hu]; [lia|].
    destruct (lookup_lt_is_Some_2 r 1) as [v Hv]; [lia|].
    exists ((i, (u, v)) :: tags). cbn [annotate]. unfold element, item.
    rewrite !decide_True by lia.
    rewrite Hr. cbn. rewrite Hu. cbn. rewrite Hv. cbn. rewrite Htags. cbn.
    split; [done|]. split; [by rewrite Hfst|].
    constructor; [by exists r|done].
Qed.

Lemma plot_trace_ok a tags :
  rectangular a → 2 ≤ n_columns a →
  ∃ t, plot_trace a tags = Ok t ∧
       legend_steps t = length (array_rows a) ∧
       length (line_x t) = length (array_rows a) ∧
       length (line_y t) = length (array_rows a) ∧
       (∀ i r, array_rows a !! i = Some r →
               line_x t !! i = r !! 0 ∧ line_y t !! i = r !! 1) ∧
       map fst (line_tags t)
       = (if tags
          then map (λ k, 10 * k)
                   (seq 0 ((length (array_rows a) + 9) / 10))
          else []) ∧
       Forall (tag_of_row (array_rows a)) (line_tags t).
Proof.
  intros Hrect Hw. unfold plot_trace.
  destruct (column_ok 0 a Hrect) as (xs & -> & Hlx & Hx); [lia|].
  destruct (column_ok 1 a Hrect) as (ys & -> & Hly & Hy); [lia|].
  cbn [mbind pyresult_bind]. destruct tags.
  - destruct (annotate_ok (py_range 0 (length (array_rows a)) 10) a Hrect Hw)
      as (marks & -> & Hfst & Hall).
    { apply Forall_forall. intros i Hi.
      by apply py_range_tens_elem in Hi as [Hlt _]. }
    eexists. split; [done|]. cbn. rewrite Hfst, py_range_tens.
    repeat (split; [done|]). split; [|done]. intros i r Hr.
    by rewrite (Hx i r Hr), (Hy i r Hr).
  - eexists. split; [done|]. cbn. repeat (split; [done|]).
    split; [|by split]. intros i r Hr.
    by rewrite (Hx i r Hr), (Hy i r Hr).
Qed.

Lemma plot_trace_narrow a tags :
  rectangular a → n_columns a < 2 → plot_trace a tags = Raise IndexError.
Proof.
  intros Hrect Hw. unfold plot_trace.
  destruct (decide (0 < n_columns a)) as [Hpos|Hzero].
  - destruct (column_ok 0 a Hrect Hpos) as (xs & -> & _).
    cbn [mbind pyresult_bind]. unfold column.
    destruct (decide (1 < n_columns a)); [lia|done].
  - unfold column. destruct (decide (0 < n_columns a)); done.
Qed.

(** [plot_trace] on a 2D array, whose rows have the width of the array.
    With fewer than two columns it raises [IndexError], whether the
    array has rows or not.  With two columns or more it does not raise:
    the label counts the rows, the line goes through the first two
    elements of every row, and with [tags] the tags are at the rows
    0, 10, 20, ... below the number of rows, at the points of those
    rows. *)
Theorem plot_trace_tags a tags :
  rectangular a →
  (n_columns a < 2 → plot_trace a tags = Raise IndexError) ∧
  (2 ≤ n_columns a →
   ∃ t, plot_trace a tags = Ok t ∧
        legend_steps t = length (array_rows a) ∧
        length (line_x t) = length (array_rows a) ∧
        length (line_y t) = length (array_rows a) ∧
        (∀ i r, array_rows a !! i = Some r →
                line_x t !! i = r !! 0 ∧ line_y t !! i = r !! 1) ∧
        map fst (line_tags t)
        = (if tags
           then map (λ k, 10 * k)
                    (seq 0 ((length (array_rows a) + 9) / 10))
           else []) ∧
        (tags = true →
         ∀ i, i ∈ map fst (line_tags t)
              ↔ i < length (array_rows a) ∧ i mod 10 = 0) ∧
        Forall (tag_of_row (array_rows a)) (line_tags t)).
Proof.
  intros Hrect. split; [by apply plot_trace_narrow|]. intros Hw.
  destruct (plot_trace_ok a tags Hrect Hw)
    as (t & Hrun & Hn & Hlx & Hly & Hline & Hfst & Hall).
  exists t. repeat (split; [done|]). split; [|done].
  intros -> i. rewrite Hfst, <- py_range_tens. apply py_range_tens_elem.
Qed.

Lemma descent_lengths (f : objective R) opt n :
  grad_shape f →
  ∀ v, Forall (λ r, length r = length v) (descent f opt n v).1.
Proof.
  intros Hf. induction n as [|n IH]; intros v; cbn; [constructor|].
  destruct (ltb (sum_sq (gradient f v)) tol); cbn; [constructor|].
  specialize (IH (advance opt v (gradient f v))).
  destruct (descent f opt n (advance opt v (gradient f v))) as [rows e].
  cbn in *. constructor; [done|].
  eapply Forall_impl; [exact IH|]. cbn. intros r ->.
  apply length_advance, Hf.
Qed.

(** The tensor that [minimize] returns with an optimizer of the notebook
    on an iterate of at least two elements can be drawn.  It is a 2D
    array with as many columns as the iterate has elements; [plot_trace]
    does not raise on it, and the number of steps in its label is the
    number of rows, at least one and at most the budget. *)
Theorem plot_trace_of_minimize
    (f : objective R) opt x max_iter verbose h o rows tags :
  add_zero_law → grad_shape f → own opt → get_iterate opt = Ok x →
  h !! x = Some o → shaped o → 2 ≤ length (data o) →
  minimize f opt max_iter verbose h = Ok rows →
  rectangular (Ndarray (length (data o)) rows) ∧
  ∃ t, plot_trace (Ndarray (length (data o)) rows) tags = Ok t ∧
       legend_steps t = length rows ∧ 1 ≤ legend_steps t ≤ max_iter.
Proof.
  intros Hlaw Hf Hown Hit Hx Ho Hlen Hmin.
  assert (Hbound : 1 ≤ length rows ≤ max_iter).
  { unfold minimize, minimize_run in Hmin. rewrite Hit in Hmin. cbn in Hmin.
    destruct (minimize_loop f x verbose 0 max_iter (start opt h))
      as [r|] eqn:Hrun; cbn in Hmin; [|discriminate].
    apply loop_record_bound in Hrun. cbn in Hrun.
    unfold torch_cat in Hmin.
    destruct (iterate_record r) as [|c cs] eqn:E; [discriminate|].
    apply read_rows_length in Hmin. rewrite Hmin. cbn in *. lia. }
  rewrite (minimize_descent_value f opt x max_iter verbose h o
             Hlaw Hf Hown Hit Hx Ho (λ _, Hlen)) in Hmin.
  pose proof (descent_lengths f opt max_iter Hf (data o)) as Hall.
  destruct (descent f opt max_iter (data o)).1 as [|v rows'] eqn:E;
    [discriminate|].
  injection Hmin as <-. split; [exact Hall|].
  destruct (plot_trace_ok (Ndarray (length (data o)) (v :: rows')) tags)
    as (t & Hrun & Hn & _); [exact Hall|exact Hlen|].
  exists t. split; [done|]. split; [done|]. cbn in Hn. by rewrite Hn.
Qed.

End MorePlots.

(** * The grid of [plot_function] *)

Section MoreGrid.
Context {R : Type} `{Scalar R} `{Exponential R}.
Implicit Types (x y : list R) (f : GaussianCombination R).

Lemma zip_with_const_r {C} (k : R → R → C) x (yi : R) :
  zip_with k x (map (λ _, yi) x) = map (λ xj, k xj yi) x.
Proof. induction x as [|a x IH]; [done|]. cbn. by rewrite IH. Qed.

Lemma grid_samples_meshgrid x y :
  grid_samples (meshgrid x y).1 (meshgrid x y).2
  = concat (map (λ yi, map (λ xj, [xj; yi]) x) y).
Proof.
  unfold grid_samples, meshgrid. cbn [fst snd]. f_equal.
  induction y as [|yi y IH]; [done|].
  cbn [map zip_with]. by rewrite IH, zip_with_const_r.
Qed.

Lemma Forall2_map_l {A B C} (P : B → C → Prop) (k : A → B) l l' :
  Forall2 P (map k l) l' ↔ Forall2 (λ a c, P (k a) c) l l'.
Proof.
  revert l'. induction l as [|a l IH]; intros l'; cbn.
  - split; inversion 1; constructor.
  - split; inversion 1; subst; constructor; try done; by apply IH.
Qed.

Lemma Forall2_chunks {A} (Q : A → R → Prop) m (ls : list (list A)) vals :
  Forall (λ r, length r = m) ls →
  Forall2 Q (concat ls) vals →
  Forall2 (Forall2 Q) ls (chunks m (length ls) vals).
Proof.
  intros Hall. revert vals.
  induction Hall as [|r ls Hr _ IH]; intros vals Hvals; cbn; [constructor|].
  apply Forall2_app_inv_l in Hvals as (v1 & v2 & H1 & H2 & ->).
  assert (length v1 = m) as Hlen.
  { by rewrite <- (Forall2_length _ _ _ H1). }
  rewrite take_app_length' by done. rewrite drop_app_length' by done.
  constructor; [done|by apply IH].
Qed.

Lemma plot_function_on_grid f x y :
  gaussians f ≠ [] → weights f ≠ [] →
  ∃ Z, plot_function_on f x y (length y) (length x) = Some (Ok Z) ∧
       Forall2 (λ yi zrow,
                  Forall2 (λ xj e, GaussianCombination_forward f
                                     (Point [xj; yi])
                                   = Some (PyTensor [e])) x zrow) y Z.
Proof.
  intros Hg Hw. unfold plot_function_on.
  pose proof (grid_samples_meshgrid x y) as Hs.
  destruct (meshgrid x y) as [X Y]. cbn [fst snd] in Hs. rewrite Hs.
  set (ls := map (λ yi, map (λ xj, [xj; yi]) x) y).
  destruct (combination_rowwise f (concat ls) Hg Hw)
    as (vals & -> & Hvals).
  { apply Forall_concat. unfold ls. apply Forall_forall. intros r Hr.
    apply list_elem_of_In, in_map_iff in Hr as (yi & <- & _).
    apply Forall_forall. intros v Hv.
    apply list_elem_of_In, in_map_iff in Hv as (xj & <- & _). done. }
  assert (Hrows : Forall (λ r : list (list R), length r = length x) ls).
  { unfold ls. apply Forall_forall. intros r Hr.
    apply list_elem_of_In, in_map_iff in Hr as (yi & <- & _).
    apply length_map. }
  assert (Hlen : length ls = length y) by apply length_map.
  cbn [mbind option_bind]. unfold reshape.
  rewrite decide_True.
  - eexists. split; [done|]. rewrite <- Hlen.
    pose proof (Forall2_chunks _ _ ls vals Hrows Hvals) as HZ.
    unfold ls in HZ at 1.
    apply (proj1 (Forall2_map_l _ (λ yi, map (λ xj, [xj; yi]) x) y _))
      in HZ.
    eapply Forall2_impl; [exact HZ|]. cbn. intros yi zrow Hrow.
    by apply (proj1 (Forall2_map_l _ (λ xj, [xj; yi]) x zrow)) in Hrow.
  - rewrite <- (Forall2_length _ _ _ Hvals), <- Hlen. clear -Hrows.
    induction Hrows as [|r ls Hr _ IH]; [done|].
    cbn. rewrite length_app, IH, Hr. lia.
Qed.

Lemma length_np_linspace (a b : Q) n : length (np_linspace a b n) = n.
Proof. unfold np_linspace. by rewrite length_map, length_seq. Qed.

(** [plot_function] of a combination that is not empty builds a grid
    [Z] of 100 rows of 100 values, and [Z[i][j]] is the value of [f] at
    the point [(x[j], y[i])] of the two axes: the reshaping of the
    samples and of the values puts every value back at its point. *)
Theorem plot_function_grid f :
  gaussians f ≠ [] → weights f ≠ [] →
  let axis := np_linspace (-3) 3 100 in
  ∃ Z, plot_function f = Some (Ok Z) ∧
       length axis = 100 ∧ length Z = 100 ∧
       Forall (λ zrow, length zrow = 100) Z ∧
       Forall2 (λ yi zrow,
                  Forall2 (λ xj e, GaussianCombination_forward f
                                     (Point [xj; yi])
                                   = Some (PyTensor [e])) axis zrow) axis Z.
Proof.
  intros Hg Hw axis.
  destruct (plot_function_on_grid f axis axis Hg Hw) as (Z & HZ & Hgrid).
  assert (Hax : length axis = 100) by apply length_np_linspace.
  rewrite Hax in HZ.
  exists Z. split; [exact HZ|]. split; [done|].
  split; [by rewrite <- (Forall2_length _ _ _ Hgrid)|].
  split; [|done].
  apply Forall_forall. intros zrow Hz.
  apply list_elem_of_lookup in Hz as [i Hi].
  destruct (Forall2_lookup_r _ _ _ _ _ Hgrid Hi) as (yi & _ & Hrow).
  by rewrite <- (Forall2_length _ _ _ Hrow).
Qed.

End MoreGrid.

(** * The further properties on the notebook's objective *)

Section MoreSampleObjective.
Import Samples.

Lemma GaussianCombination_init_invariant_sample :
  GaussianCombination_init [p1; p2] [m1; m2] [w1; w2] = Ok toy_f ∧
  weights toy_f = [w1; w2] ∧
  gaussians toy_f = zip_with MkGaussian [p1; p2] [m1; m2] ∧
  length (gaussians toy_f) = length (weights toy_f) ∧
  Forall (λ g, gaussian_shapes (precision g) (mean g)) (gaussians toy_f).
Proof.
  split; [reflexivity|].
  exact (GaussianCombination_init_invariant [p1; p2] [m1; m2] [w1; w2] toy_f
           eq_refl).
Defined.

Lemma planar_points : Forall (λ v : list R, length v = 2) [[0; 1]; [0; -2]]%R.
Proof. repeat constructor. Defined.

Lemma Gaussian_forward_rowwise_sample :
  Forall (λ v : list R, length v = 2) [[0; 1]; [0; -2]]%R ∧
  ∃ vals, Gaussian_forward (MkGaussian p1 m1) (Batch [[0; 1]; [0; -2]]%R)
          = Some vals ∧
          Forall2 (λ v e, Gaussian_forward (MkGaussian p1 m1) (Point v)
                          = Some [e]) [[0; 1]; [0; -2]]%R vals.
Proof.
  split; [exact planar_points|].
  exact (Gaussian_forward_rowwise (MkGaussian p1 m1) _ planar_points).
Defined.

Lemma toy_gaussians : gaussians toy_f ≠ [].
Proof. intros Hnil. discriminate Hnil. Defined.

Lemma toy_weights : weights toy_f ≠ [].
Proof. intros Hnil. discriminate Hnil. Defined.

Lemma GaussianCombination_forward_rowwise_sample :
  gaussians toy_f ≠ [] ∧ weights toy_f ≠ [] ∧
  Forall (λ v : list R, length v = 2) [[0; 1]; [0; -2]]%R ∧
  ∃ vals, GaussianCombination_forward toy_f (Batch [[0; 1]; [0; -2]]%R)
          = Some (PyTensor vals) ∧
          Forall2 (λ v e, GaussianCombination_forward toy_f (Point v)
                          = Some (PyTensor [e])) [[0; 1]; [0; -2]]%R vals.
Proof.
  split; [exact toy_gaussians|]. split; [exact toy_weights|].
  split; [exact planar_points|].
  exact (GaussianCombination_forward_rowwise toy_f _ toy_gaussians
           toy_weights planar_points).
Defined.

Lemma plot_function_grid_sample :
  gaussians toy_f ≠ [] ∧ weights toy_f ≠ [] ∧
  let axis := np_linspace (R := R) (-3) 3 100 in
  ∃ Z, plot_function toy_f = Some (Ok Z) ∧
       length axis = 100 ∧ length Z = 100 ∧
       Forall (λ zrow, length zrow = 100) Z ∧
       Forall2 (λ yi zrow,
                  Forall2 (λ xj e, GaussianCombination_forward toy_f
                                     (Point [xj; yi])
                                   = Some (PyTensor [e])) axis zrow) axis Z.
Proof.
  split; [exact toy_gaussians|]. split; [exact toy_weights|].
  exact (plot_function_grid toy_f toy_gaussians toy_weights).
Defined.

Local Open Scope Q_scope.

Lemma rectangular_slope_rows :
  rectangular
    (Ndarray 2 [[4 # 5; 4 # 5]; [35 # 50; 35 # 50]; [300 # 500; 300 # 500]]).
Proof. repeat constructor. Defined.

Lemma plot_trace_tags_sample :
  let rows := [[4 # 5; 4 # 5]; [35 # 50; 35 # 50]; [300 # 500; 300 # 500]] in
  rectangular (Ndarray 2 rows) ∧ (2 ≤ n_columns (Ndarray 2 rows))%nat ∧
  ∃ t, plot_trace (Ndarray 2 rows) true = Ok t ∧
       legend_steps t = length rows ∧
       length (line_x t) = length rows ∧ length (line_y t) = length rows ∧
       (∀ i r, rows !! i = Some r →
               line_x t !! i = r !! 0%nat ∧ line_y t !! i = r !! 1%nat) ∧
       map fst (line_tags t)
       = map (λ k, (10 * k)%nat) (seq 0 ((length rows + 9) / 10)) ∧
       (true = true →
        ∀ i, i ∈ map fst (line_tags t)
             ↔ (i < length rows)%nat ∧ (i mod 10 = 0)%nat) ∧
       Forall (tag_of_row rows) (line_tags t).
Proof.
  cbv zeta. split; [exact rectangular_slope_rows|]. split; [apply le_n|].
  exact (proj2 (plot_trace_tags _ true rectangular_slope_rows) (le_n 2)).
Defined.

Example plot_trace_slope :
  plot_trace
    (Ndarray 2 [[4 # 5; 4 # 5]; [35 # 50; 35 # 50]; [300 # 500; 300 # 500]])
    true
  = Ok (Trace 3 [4 # 5; 35 # 50; 300 # 500] [4 # 5; 35 # 50; 300 # 500]
              [(0%nat, (4 # 5, 4 # 5))]).
Proof. reflexivity. Qed.

Example plot_trace_one_column :
  plot_trace (Ndarray 1 [[4 # 5]; [7 # 10]]) false = Raise IndexError.
Proof. reflexivity. Qed.

Example plot_trace_no_row :
  plot_trace (R := Q) (Ndarray 1 []) true = Raise IndexError
  ∧ plot_trace (R := Q) (Ndarray 2 []) true = Ok (Trace 0 [] [] []).
Proof. split; reflexivity. Qed.

Lemma plot_trace_of_minimize_sample :
  let opt := GradientDescent [0%nat] default_lr in
  let rows := [[4 # 5; 4 # 5]; [35 # 50; 35 # 50]; [300 # 500; 300 # 500]] in
  add_zero_law (R := Q) ∧ grad_shape slope ∧ own opt
  ∧ get_iterate opt = Ok 0%nat ∧ fresh !! 0%nat = Some (Tensor init None)
  ∧ shaped (Tensor init None) ∧ (2 ≤ length (data (Tensor init None)))%nat
  ∧ minimize slope opt 3 false fresh = Ok rows
  ∧ rectangular (Ndarray 2 rows)
  ∧ ∃ t, plot_trace (Ndarray 2 rows) true = Ok t ∧
         legend_steps t = length rows ∧ (1 ≤ legend_steps t ≤ 3)%nat.
Proof.
  cbv zeta. split; [exact Q_add_zero|]. split; [exact grad_shape_slope|].
  split; [exact I|]. split; [reflexivity|]. split; [reflexivity|].
  split; [exact shaped_fresh|]. split; [apply le_n|].
  split; [reflexivity|].
  exact (plot_trace_of_minimize slope (GradientDescent [0%nat] default_lr)
           0 3 false fresh (Tensor init None) _ true Q_add_zero
           grad_shape_slope I eq_refl eq_refl shaped_fresh (le_n 2) eq_refl).
Defined.

End MoreSampleObjective.
